(** * SAD VM: a shallow embedding of [SAD_VM.py] and its verified properties

    The machine of [SAD_VM.py] is a Python class whose handlers mutate
    [self] and fail by raising host exceptions.  It is embedded here as a
    state-and-exception monad over a record [Machine]: every handler is a
    computation [M unit] that returns either normally or with the Python
    exception it raised, together with the machine as it was left.

    Domain of the model.  Operands and register contents are the host's
    unbounded integers or the object [None] (the sample program uses
    [(JMPC, None)]); other Python objects are outside the model.  The
    standard input is a list of lines already classified by what
    [int(input())] makes of them, the standard output a list of print
    events.

    The host is CPython 3.11 with its defaults: a C [int] of 32 bits, at
    most 4300 digits in a conversion between [int] and [str], and a
    standard output that is open and encodes as UTF-8 with strict error
    handling. *)

From Stdlib Require Import ZArith String.
From stdpp Require Import gmap list.

Open Scope Z_scope.

(** ** Values *)

(** A Python object held by a register, a memory cell or an operand. *)
Inductive value : Type :=
  | VNone
  | VInt (z : Z).

#[global] Instance value_eq_dec : EqDecision value.
Proof. solve_decision. Defined.

Definition value_to_option (v : value) : option Z :=
  match v with VNone => None | VInt z => Some z end.

Definition value_of_option (o : option Z) : value :=
  match o with None => VNone | Some z => VInt z end.

#[global] Instance value_countable : Countable value :=
  inj_countable' value_to_option value_of_option
    (λ v, match v with VNone => eq_refl | VInt _ => eq_refl end).

Coercion VInt : Z >-> value.

(** ** Instruction-set constants (lines 28-86 of the source) *)

(* op codes *)
Definition MOV : Z := 0x0.
Definition MEM : Z := 0x1.
Definition LIMM : Z := 0x2.
Definition MATH : Z := 0x3.
Definition MATHI : Z := 0x4.
Definition COMP : Z := 0x5.
Definition LOG : Z := 0x6.
Definition CNT : Z := 0x7.
Definition LOOP : Z := 0x8.
Definition JMP : Z := 0x9.
Definition JMPC : Z := 0xa.
Definition JMPR : Z := 0xb.
Definition RET : Z := 0xc.
Definition INC : Z := 0xd.
Definition DEC : Z := 0xe.
Definition STCK : Z := 0xf.

(* math ops *)
Definition ADD : Z := 0x0.
Definition SUB : Z := 0x1.
Definition MULT : Z := 0x2.
Definition DIV : Z := 0x3.

(* mem ops *)
Definition LOAD : Z := 0x0.
Definition STOR : Z := 0x1.
(* stack ops *)
Definition PUSH : Z := 0x0.
Definition POP : Z := 0x1.

(* comparative ops *)
Definition EQ : Z := 0x0.
Definition NEQ : Z := 0x1.
Definition LT : Z := 0x2.
Definition GT : Z := 0x3.
Definition LTE : Z := 0x4.
Definition GTE : Z := 0x5.

(* accessible registers *)
Definition PC : Z := 0x0.
Definition R_CNT : Z := 0x1.
Definition R_0 : Z := 0x2.
Definition R_1 : Z := 0x3.
Definition R_2 : Z := 0x4.
Definition R_3 : Z := 0x5.
Definition R_4 : Z := 0x6.
Definition R_5 : Z := 0x7.
Definition R_6 : Z := 0x8.
Definition R_7 : Z := 0x9.
Definition R_8 : Z := 0xa.
Definition R_9 : Z := 0xb.
Definition R_10 : Z := 0xc.
Definition R_11 : Z := 0xd.
Definition R_12 : Z := 0xe.
Definition R_13 : Z := 0xf.

Definition IO_OUT : Z := 0xffff0000.

(** The literals the memory handler compares its operands with. *)
Definition IO_IN_LIT : Z := 0xff00.
Definition IO_NUM_LIT : Z := 0xffff0000.
Definition IO_CHR_LIT : Z := 0xffff0001.

(** ** Host exceptions and the outside world *)

(** The Python exception classes the machine can raise. *)
Inductive exn : Type :=
  | IndexError          (* list or tuple index out of range, pop from empty list *)
  | KeyError            (* key absent from a dict *)
  | TypeError           (* arithmetic or ordering on None *)
  | ZeroDivisionError   (* // by zero *)
  | ValueError          (* int() of a malformed line, chr() out of range,
                           str() of an integer of more than 4300 digits *)
  | OverflowError       (* chr() of an integer that does not fit a C int *)
  | UnicodeEncodeError  (* print of a surrogate code point; the host makes it
                           a subclass of ValueError *)
  | EOFError            (* input() at end of input *)
  | SystemExit.         (* quit() *)

#[global] Instance exn_eq_dec : EqDecision exn.
Proof. solve_decision. Defined.

(** What one call of [print] writes. *)
Inductive out_event : Type :=
  | OutValue (v : value)               (* print(v): str(v) and a line break *)
  | OutNewline                         (* print() *)
  | OutChar (c : Z)                    (* print(chr(c), end='') *)
  | OutError (msg : string) (args : list value).
                                       (* print(msg.format(args)) *)

(** ** Machine state (Machine.__init__) *)

Record Machine : Type := mkMachine {
  program : list (list value);   (* program instructions as an array of tuples *)
  cond : Z;                      (* conditional register *)
  ra : value;                    (* return address register *)
  regs : gmap value value;       (* registers: 0 is PC, 1 is CNT *)
  stack : list value;            (* the stack, top at the END as in Python *)
  mem : gmap value value;        (* data memory *)
  stdin : list (option Z);       (* pending input lines: Some z if int() reads z *)
  stdout : list out_event        (* everything printed so far, oldest first *)
}.

Definition set_cond (c : Z) (m : Machine) : Machine :=
  mkMachine (program m) c (ra m) (regs m) (stack m) (mem m) (stdin m) (stdout m).
Definition set_ra (v : value) (m : Machine) : Machine :=
  mkMachine (program m) (cond m) v (regs m) (stack m) (mem m) (stdin m) (stdout m).
Definition set_regs (r : gmap value value) (m : Machine) : Machine :=
  mkMachine (program m) (cond m) (ra m) r (stack m) (mem m) (stdin m) (stdout m).
Definition set_stack (s : list value) (m : Machine) : Machine :=
  mkMachine (program m) (cond m) (ra m) (regs m) s (mem m) (stdin m) (stdout m).
Definition set_mem (d : gmap value value) (m : Machine) : Machine :=
  mkMachine (program m) (cond m) (ra m) (regs m) (stack m) d (stdin m) (stdout m).
Definition set_stdin (i : list (option Z)) (m : Machine) : Machine :=
  mkMachine (program m) (cond m) (ra m) (regs m) (stack m) (mem m) i (stdout m).
Definition set_stdout (o : list out_event) (m : Machine) : Machine :=
  mkMachine (program m) (cond m) (ra m) (regs m) (stack m) (mem m) (stdin m) o.

(** [{i: 0 for i in range(16)}] *)
Definition init_regs : gmap value value :=
  list_to_map ((λ i : Z, (VInt i, VInt 0)) <$> seqZ 0 16).

(** [Machine(prog)], started with the input lines [inp] pending. *)
Definition Machine_init (prog : list (list value)) (inp : list (option Z)) : Machine :=
  mkMachine prog 0 (VInt 0) init_regs [] ∅ inp [].

(** ** The state-and-exception monad *)

Inductive outcome (A : Type) : Type :=
  | Ret (a : A) (m : Machine)      (* returned [a], machine left as [m] *)
  | Exc (e : exn) (m : Machine).   (* raised [e], machine left as [m] *)
Arguments Ret {A} a m.
Arguments Exc {A} e m.

Definition M (A : Type) : Type := Machine → outcome A.

#[global] Instance M_ret : MRet M := λ A a m, Ret a m.
#[global] Instance M_bind : MBind M := λ A B k c m,
  match c m with
  | Ret a m' => k a m'
  | Exc e m' => Exc e m'
  end.

Definition raise {A : Type} (e : exn) : M A := λ m, Exc e m.
Definition modify (f : Machine → Machine) : M unit := λ m, Ret tt (f m).
Definition gets {A : Type} (f : Machine → A) : M A := λ m, Ret (f m) m.

(** [d[k]] on a dict: KeyError when the key is absent. *)
Definition dict_get {V : Type} (d : gmap value V) (k : value) : M V :=
  match d !! k with
  | Some v => mret v
  | None => raise KeyError
  end.

(** [self.regs[r]] and [self.regs[r] = v] *)
Definition get_reg (r : value) : M value := d ← gets regs; dict_get d r.
Definition put_reg (r v : value) : M unit := modify (λ m, set_regs (<[r:=v]> (regs m)) m).

(** [self.mem[a]] and [self.mem[a] = v] *)
Definition get_mem (a : value) : M value := d ← gets mem; dict_get d a.
Definition put_mem (a v : value) : M unit := modify (λ m, set_mem (<[a:=v]> (mem m)) m).

(** [l[i]] on a list or tuple with an integer index: Python counts a
    negative index from the end, and raises IndexError outside
    [-len(l) <= i < len(l)]. *)
Definition py_index {A : Type} (l : list A) (i : Z) : option A :=
  if bool_decide (0 ≤ i) then l !! Z.to_nat i
  else if bool_decide (- Z.of_nat (length l) ≤ i) then l !! Z.to_nat (Z.of_nat (length l) + i)
  else None.

Definition py_getitem {A : Type} (l : list A) (i : value) : M A :=
  match i with
  | VNone => raise TypeError
  | VInt z => match py_index l z with
              | Some x => mret x
              | None => raise IndexError
              end
  end.

(** [rest[k]] for a literal index [k]. *)
Definition item (rest : list value) (k : Z) : M value := py_getitem rest (VInt k).

(** Integer arithmetic of the host; [None] as an operand is a TypeError. *)
Definition py_arith (f : Z → Z → Z) (a b : value) : M value :=
  match a, b with
  | VInt x, VInt y => mret (VInt (f x y))
  | _, _ => raise TypeError
  end.
Definition py_add : value → value → M value := py_arith Z.add.
Definition py_sub : value → value → M value := py_arith Z.sub.
Definition py_mul : value → value → M value := py_arith Z.mul.

(** [a // b]: the type check comes before the test for a zero divisor. *)
Definition py_floordiv (a b : value) : M value :=
  match a, b with
  | VInt x, VInt y => if bool_decide (y = 0) then raise ZeroDivisionError
                      else mret (VInt (x `div` y))
  | _, _ => raise TypeError
  end.

(** [int(a == b)], [int(a != b)]: defined on every pair of objects. *)
Definition py_eq (a b : value) : Z := if bool_decide (a = b) then 1 else 0.
Definition py_ne (a b : value) : Z := if bool_decide (a = b) then 0 else 1.

(** [int(a < b)] and the like: ordering [None] is a TypeError. *)
Definition py_order (f : Z → Z → bool) (a b : value) : M Z :=
  match a, b with
  | VInt x, VInt y => mret (if f x y then 1 else 0)
  | _, _ => raise TypeError
  end.

(** Writing to the standard output, once the text is there to write. *)
Definition emit (e : out_event) : M unit := modify (λ m, set_stdout (stdout m ++ [e]) m).

(** Limits of the host. *)
Definition INT_MAX_STR_DIGITS : Z := 4300.
Definition C_INT_MIN : Z := - 2 ^ 31.
Definition C_INT_MAX : Z := 2 ^ 31 - 1.

(** [str(v)] exists: [v] is None or an integer of at most
    [INT_MAX_STR_DIGITS] digits, the sign not counted. *)
Definition str_ok (v : value) : bool :=
  match v with
  | VNone => true
  | VInt z => bool_decide (Z.abs z < 10 ^ INT_MAX_STR_DIGITS)
  end.

(** [str(v)] where only its failure matters: ValueError past the limit. *)
Definition py_str_check (v : value) : M unit :=
  if str_ok v then mret tt else raise ValueError.

(** [print(v)]: the conversion comes before the write. *)
Definition print_value (v : value) : M unit :=
  py_str_check v;; emit (OutValue v).

(** [print(msg.format(mode))] *)
Definition print_format (msg : string) (mode : value) : M unit :=
  py_str_check mode;; emit (OutError msg [mode]).

(** [print(chr(c), end='')] once [chr(c)] is there: UTF-8 has no encoding
    for a surrogate, and nothing is written. *)
Definition print_char (c : Z) : M unit :=
  if bool_decide (0xD800 ≤ c ≤ 0xDFFF) then raise UnicodeEncodeError
  else emit (OutChar c).

(** [int(input())]: a line that [int] rejects (one of more than 4300
    digits is among them) is a ValueError. *)
Definition py_input_int : M value := λ m,
  match stdin m with
  | [] => Exc EOFError m
  | None :: tl => Exc ValueError (set_stdin tl m)
  | Some z :: tl => Ret (VInt z) (set_stdin tl m)
  end.

(** [chr(v)]: the argument is converted to a C int first (OverflowError
    when it does not fit), then checked to be a code point in
    [0, 0x110000) (ValueError). *)
Definition py_chr (v : value) : M Z :=
  match v with
  | VNone => raise TypeError
  | VInt c =>
    if bool_decide (C_INT_MIN ≤ c ≤ C_INT_MAX) then
      if bool_decide (0 ≤ c < 0x110000) then mret c else raise ValueError
    else raise OverflowError
  end.

(** [quit()]: closes the standard input, so that the lines still pending
    are lost, and raises SystemExit. *)
Definition quit : M unit :=
  modify (set_stdin []);; raise SystemExit.

(** [l.append(v)] and [l.pop()] on the stack. *)
Definition stack_append (v : value) : M unit := modify (λ m, set_stack (stack m ++ [v]) m).
Definition stack_pop : M value := λ m,
  match last (stack m) with
  | Some v => Ret v (set_stack (removelast (stack m)) m)
  | None => Exc IndexError m
  end.

(** ** Handlers (one per operation code) *)

Definition mov_op (rest : list value) : M unit :=
  dst ← item rest 0;
  src ← item rest 1;
  v ← get_reg src; put_reg dst v.

Definition math_op (rest : list value) : M unit :=
  dst ← item rest 0;
  src1 ← item rest 1;
  src2 ← item rest 2;
  mode ← item rest 3;
  if bool_decide (mode = VInt ADD) then
    a ← get_reg src1; b ← get_reg src2; v ← py_add a b; put_reg dst v
  else if bool_decide (mode = VInt SUB) then
    a ← get_reg src1; b ← get_reg src2; v ← py_sub a b; put_reg dst v
  else if bool_decide (mode = VInt MULT) then
    a ← get_reg src1; b ← get_reg src2; v ← py_mul a b; put_reg dst v
  else if bool_decide (mode = VInt DIV) then
    a ← get_reg src1; b ← get_reg src2; v ← py_floordiv a b; put_reg dst v
  else
    emit (OutError "ERROR(math_op): math mode flag not found" []);;
    quit.

Definition mathi_op (rest : list value) : M unit :=
  dst ← item rest 0;
  mode ← item rest 1;
  imm ← item rest 2;
  if bool_decide (mode = VInt ADD) then
    a ← get_reg dst; v ← py_add a imm; put_reg dst v
  else if bool_decide (mode = VInt SUB) then
    a ← get_reg dst; v ← py_sub a imm; put_reg dst v
  else if bool_decide (mode = VInt MULT) then
    a ← get_reg dst; v ← py_mul a imm; put_reg dst v
  else if bool_decide (mode = VInt DIV) then
    a ← get_reg dst; v ← py_floordiv a imm; put_reg dst v
  else
    print_format "ERROR(mathi_op): math mode flag not found ({})" mode;;
    quit.

(** In the STOR branch the source returns after the numeric print, so the
    two sentinel tests and the store are three exclusive cases. *)
Definition mem_op (rest : list value) : M unit :=
  dst ← item rest 0;
  src ← item rest 1;
  mode ← item rest 2;
  if bool_decide (mode = VInt LOAD) then
    if bool_decide (src = VInt IO_IN_LIT) then
      v ← py_input_int; put_reg dst v
    else
      a ← get_reg src; v ← get_mem a; put_reg dst v
  else if bool_decide (mode = VInt STOR) then
    if bool_decide (dst = VInt IO_NUM_LIT) then
      v ← get_reg src; print_value v
    else if bool_decide (dst = VInt IO_CHR_LIT) then
      v ← get_reg src;
      if bool_decide (v = VInt 0) then emit OutNewline
      else (v' ← get_reg src; c ← py_chr v'; print_char c)
    else
      v ← get_reg src; a ← get_reg dst; put_mem a v
  else mret tt.

Definition limm_op (rest : list value) : M unit :=
  dst ← item rest 0;
  v ← item rest 1; put_reg dst v.

Definition jmp_op (rest : list value) : M unit :=
  t ← item rest 0; put_reg PC t.

(** [not self.cond] holds exactly for the integer 0. *)
Definition jmpc_op (rest : list value) : M unit :=
  c ← gets cond;
  if bool_decide (c = 0) then (t ← item rest 0; put_reg PC t)
  else mret tt.

Definition jmpr_op (rest : list value) : M unit :=
  pc ← get_reg PC; modify (set_ra pc);;
  t ← item rest 0; put_reg PC t.

Definition ret_op (rest : list value) : M unit :=
  v ← gets ra; put_reg PC v.

Definition comp_op (rest : list value) : M unit :=
  reg1 ← item rest 0;
  reg2 ← item rest 1;
  mode ← item rest 2;
  if bool_decide (mode = VInt EQ) then
    a ← get_reg reg1; b ← get_reg reg2; modify (set_cond (py_eq a b))
  else if bool_decide (mode = VInt NEQ) then
    a ← get_reg reg1; b ← get_reg reg2; modify (set_cond (py_ne a b))
  else if bool_decide (mode = VInt LT) then
    a ← get_reg reg1; b ← get_reg reg2; c ← py_order Z.ltb a b; modify (set_cond c)
  else if bool_decide (mode = VInt GT) then
    a ← get_reg reg1; b ← get_reg reg2; c ← py_order Z.gtb a b; modify (set_cond c)
  else if bool_decide (mode = VInt LTE) then
    a ← get_reg reg1; b ← get_reg reg2; c ← py_order Z.leb a b; modify (set_cond c)
  else if bool_decide (mode = VInt GTE) then
    a ← get_reg reg1; b ← get_reg reg2; c ← py_order Z.geb a b; modify (set_cond c)
  else
    emit (OutError "ERROR(comp_op): comparison mode flag not found." []);;
    quit.

Definition cnt_op (rest : list value) : M unit :=
  v ← item rest 0; put_reg R_CNT v.

(** The truth value of an object: [None] and 0 are false. *)
Definition py_truthy (v : value) : bool :=
  match v with
  | VNone => false
  | VInt z => negb (bool_decide (z = 0))
  end.

Definition loop_op (rest : list value) : M unit :=
  c ← get_reg R_CNT; c' ← py_sub c (VInt 1); put_reg R_CNT c';;
  c'' ← get_reg R_CNT;
  if py_truthy c'' then (t ← item rest 0; put_reg PC t)
  else mret tt.

Definition inc_op (rest : list value) : M unit :=
  r ← item rest 0;
  a ← get_reg r; v ← py_add a (VInt 1); put_reg r v.

Definition dec_op (rest : list value) : M unit :=
  r ← item rest 0;
  a ← get_reg r; v ← py_sub a (VInt 1); put_reg r v.

Definition stck_op (rest : list value) : M unit :=
  reg ← item rest 0;
  mode ← item rest 1;
  if bool_decide (mode = VInt PUSH) then
    v ← get_reg reg; stack_append v
  else if bool_decide (mode = VInt POP) then
    v ← stack_pop; put_reg reg v
  else mret tt.

(** ** Dispatch table and execution loop *)

(** [self.ops]: LOG has a code but no handler. *)
Definition ops : gmap value (list value → M unit) :=
  list_to_map [
    (VInt MOV, mov_op);
    (VInt MEM, mem_op);
    (VInt LIMM, limm_op);
    (VInt MATH, math_op);
    (VInt MATHI, mathi_op);
    (VInt COMP, comp_op);
    (VInt CNT, cnt_op);
    (VInt LOOP, loop_op);
    (VInt JMP, jmp_op);
    (VInt JMPC, jmpc_op);
    (VInt JMPR, jmpr_op);
    (VInt RET, ret_op);
    (VInt INC, inc_op);
    (VInt DEC, dec_op);
    (VInt STCK, stck_op)
  ].

(** [self.ops[op](rest)] *)
Definition dispatch (op : value) (rest : list value) : M unit :=
  handler ← dict_get ops op;
  handler rest.

(** The body of the [while] loop of [run]: fetch, advance PC, dispatch. *)
Definition step : M unit :=
  pc ← get_reg PC;
  prog ← gets program;
  instruct ← py_getitem prog pc;
  pc0 ← get_reg PC; pc1 ← py_add pc0 (VInt 1); put_reg PC pc1;;
  op ← item instruct 0;
  let rest := drop 1 instruct in
  dispatch op rest.

(** [Machine.run].  One unit of fuel pays for one test of the loop
    condition; [None] means the fuel ran out with the loop still going.
    The result is what the caller of [run] sees: [Ret None] when the loop
    ends because PC is [None], [Ret 0] when an IndexError was caught, and
    [Exc e] for every other exception, which leaves [run] uncaught. *)
Fixpoint run (fuel : nat) (m : Machine) : option (outcome value) :=
  match fuel with
  | O => None
  | S fuel' =>
    match get_reg PC m with
    | Exc e m' => Some (Exc e m')
    | Ret VNone m' => Some (Ret VNone m')
    | Ret (VInt _) m' =>
      match step m' with
      | Ret _ m'' => run fuel' m''
      | Exc IndexError m'' => Some (Ret (VInt 0) m'')
      | Exc e m'' => Some (Exc e m'')
      end
    end
  end.

(** ** Vocabulary of the statements *)

(** The machine right after the loop has fetched at [pc] and executed
    [self.regs[PC] += 1], before the handler runs. *)
Definition advance_pc (pc : Z) (m : Machine) : Machine :=
  set_regs (<[VInt PC := VInt (pc + 1)]> (regs m)) m.

(** The instruction the next iteration of the loop fetches, if any. *)
Definition fetch (m : Machine) : option (list value) :=
  match regs m !! VInt PC with
  | Some (VInt pc) => py_index (program m) pc
  | _ => None
  end.

(** [q] is the floor of the rational [a / b]: the integer with
    [q <= a / b < q + 1], written without division. *)
Definition floor_quotient (a b q : Z) : Prop :=
  (0 < b ∧ b * q ≤ a < b * q + b) ∨ (b < 0 ∧ b * q + b < a ≤ b * q).

(** Math modes and comparison modes the handlers recognise. *)
Definition math_mode (mode : value) : Prop :=
  mode = VInt ADD ∨ mode = VInt SUB ∨ mode = VInt MULT ∨ mode = VInt DIV.

(** Executions in which no fetched instruction is a JMPR: zero or more
    iterations of the loop body, each returning normally. *)
Inductive exec_no_jmpr : Machine → Machine → Prop :=
  | exec_no_jmpr_refl m : exec_no_jmpr m m
  | exec_no_jmpr_step m m1 m2 op rest :
      fetch m = Some (op :: rest) →
      op ≠ VInt JMPR →
      step m = Ret tt m1 →
      exec_no_jmpr m1 m2 →
      exec_no_jmpr m m2.

(** "set CNT to n; body; LOOP back-to-body", with a body that counts its
    own executions in R_0. *)
Definition loop_prog (n : Z) : list (list value) :=
  [ [VInt CNT; VInt n];
    [VInt INC; VInt R_0];
    [VInt LOOP; VInt 1] ].

(** The machine after a handler has assigned [t] to PC. *)
Definition jump_to (t : value) (m : Machine) : Machine :=
  set_regs (<[VInt PC := t]> (regs m)) m.

(** Sample programs the statements below are evaluated on. *)

(** Jumps to PC = -1, where Python's indexing finds the last tuple: a
    load from memory that was never stored to. *)
Definition neg_pc_prog : list (list value) :=
  [ [VInt JMP; VInt (-1)];
    [VInt MEM; VInt R_0; VInt R_1; VInt LOAD] ].

(** Pops the stack of a fresh machine. *)
Definition empty_pop_prog : list (list value) :=
  [ [VInt STCK; VInt R_0; VInt POP];
    [VInt LIMM; VInt R_1; VInt 7] ].

(** Loads from an address that was never stored to. *)
Definition unset_load_prog : list (list value) :=
  [ [VInt MEM; VInt R_0; VInt R_1; VInt LOAD] ].

(** A machine with R_0 = -7 and R_1 = 2. *)
Definition div_machine : Machine :=
  set_regs (<[VInt R_1 := VInt 2]> (<[VInt R_0 := VInt (-7)]> init_regs))
    (Machine_init [] []).

(** The machine an outcome leaves behind. *)
Definition final {A : Type} (o : outcome A) : Machine :=
  match o with Ret _ m => m | Exc _ m => m end.

(** A computation never changes the component [f] of the machine,
    whether it returns or raises. *)
Definition preserves {X A : Type} (f : Machine → X) (c : M A) : Prop :=
  ∀ m, f (final (c m)) = f m.

(** The machine after the loop has fetched a JMPR with target [t] at [i]
    and run its handler. *)
Definition after_call (i : Z) (t : value) (m : Machine) : Machine :=
  jump_to t (set_ra (VInt (i + 1)) (advance_pc i m)).

(** A call to index 2, whose body increments R_0 and returns. *)
Definition call_prog : list (list value) :=
  [ [VInt JMPR; VInt 2];
    [VInt JMP; VInt 99];
    [VInt INC; VInt R_0];
    [VInt RET] ].

(** The machine after [self.regs[R_CNT] -= 1] on a count of [c]. *)
Definition dec_cnt (c : Z) (m : Machine) : Machine :=
  set_regs (<[VInt R_CNT := VInt (c - 1)]> (regs m)) m.




(** The program of the source file (Eratosthenes' sieve, printing the
    primes below [MAX_NUM] in hexadecimal); the source fixes
    [MAX_NUM = 1000]. *)
Definition prog (MAX_NUM : Z) : list (list value) :=
  [ [VInt CNT; VInt MAX_NUM];                          (* 0 *)
    [VInt LIMM; VInt R_0; VInt 1];                     (* 1 *)
    [VInt MEM; VInt R_CNT; VInt R_0; VInt STOR];       (* 2 *)
    [VInt LOOP; VInt 1];                               (* 3 *)
    [VInt LIMM; VInt R_0; VInt MAX_NUM];               (* 4 *)
    [VInt LIMM; VInt R_1; VInt 1];                     (* 5 *)
    [VInt LIMM; VInt R_2; VInt 0];                     (* 6 *)
    [VInt INC; VInt R_1];                              (* 7 *)
    [VInt COMP; VInt R_1; VInt R_0; VInt LT];          (* 8 *)
    [VInt JMPC; VNone];                                (* 9 *)
    [VInt MEM; VInt R_3; VInt R_1; VInt LOAD];         (* 10 *)
    [VInt COMP; VInt R_2; VInt R_3; VInt NEQ];         (* 11 *)
    [VInt JMPC; VInt 7];                               (* 12 *)
    [VInt STCK; VInt R_1; VInt PUSH];                  (* 13 *)
    [VInt JMPR; VInt 24];                              (* 14 *)
    [VInt MATH; VInt R_4; VInt R_1; VInt R_1; VInt MULT];   (* 15 *)
    [VInt COMP; VInt R_4; VInt R_0; VInt LT];          (* 16 *)
    [VInt JMPC; VInt 7];                               (* 17 *)
    [VInt MEM; VInt R_4; VInt R_2; VInt STOR];         (* 18 *)
    [VInt MATH; VInt R_4; VInt R_4; VInt R_1; VInt ADD];    (* 19 *)
    [VInt COMP; VInt R_4; VInt R_0; VInt LT];          (* 20 *)
    [VInt JMPC; VInt 7];                               (* 21 *)
    [VInt MEM; VInt R_4; VInt R_2; VInt STOR];         (* 22 *)
    [VInt JMP; VInt 18];                               (* 23 *)
    [VInt LIMM; VInt R_5; VInt 10];                    (* 24 *)
    [VInt LIMM; VInt R_CNT; VInt 0];                   (* 25 *)
    [VInt LIMM; VInt R_6; VInt 16];                    (* 26 *)
    [VInt STCK; VInt R_7; VInt POP];                   (* 27 *)
    [VInt MATH; VInt R_8; VInt R_7; VInt R_6; VInt DIV];    (* 28 *)
    [VInt MATH; VInt R_9; VInt R_8; VInt R_6; VInt MULT];   (* 29 *)
    [VInt MATH; VInt R_9; VInt R_7; VInt R_9; VInt SUB];    (* 30 *)
    [VInt COMP; VInt R_9; VInt R_5; VInt LT];          (* 31 *)
    [VInt JMPC; VInt 35];                              (* 32 *)
    [VInt MATHI; VInt R_9; VInt ADD; VInt 48];         (* 33 *)
    [VInt JMP; VInt 36];                               (* 34 *)
    [VInt MATHI; VInt R_9; VInt ADD; VInt 55];         (* 35 *)
    [VInt STCK; VInt R_9; VInt PUSH];                  (* 36 *)
    [VInt INC; VInt R_CNT];                            (* 37 *)
    [VInt COMP; VInt R_8; VInt R_2; VInt NEQ];         (* 38 *)
    [VInt JMPC; VInt 42];                              (* 39 *)
    [VInt STCK; VInt R_8; VInt PUSH];                  (* 40 *)
    [VInt JMP; VInt 27];                               (* 41 *)
    [VInt STCK; VInt R_9; VInt POP];                   (* 42 *)
    [VInt MEM; VInt IO_CHR_LIT; VInt R_9; VInt STOR];  (* 43 *)
    [VInt LOOP; VInt 42];                              (* 44 *)
    [VInt LIMM; VInt R_9; VInt 0];                     (* 45 *)
    [VInt MEM; VInt IO_CHR_LIT; VInt R_9; VInt STOR];  (* 46 *)
    [VInt RET] ].

(** Adds 5 and 3, prints the sum and jumps past the end. *)
Definition add_prog : list (list value) :=
  [ [VInt LIMM; VInt R_0; VInt 5];
    [VInt LIMM; VInt R_1; VInt 3];
    [VInt MATH; VInt R_2; VInt R_0; VInt R_1; VInt ADD];
    [VInt MEM; VInt IO_OUT; VInt R_2; VInt STOR];
    [VInt JMP; VInt 99] ].

(** Pushes 1 then 2 and pops them into R_2 and R_3. *)
Definition lifo_prog : list (list value) :=
  [ [VInt LIMM; VInt R_0; VInt 1];
    [VInt LIMM; VInt R_1; VInt 2];
    [VInt STCK; VInt R_0; VInt PUSH];
    [VInt STCK; VInt R_1; VInt PUSH];
    [VInt STCK; VInt R_2; VInt POP];
    [VInt STCK; VInt R_3; VInt POP] ].

(** What [run] printed, when it returned. *)
Definition printed (o : option (outcome value)) : option (list out_event) :=
  match o with
  | Some (Ret _ m) => Some (stdout m)
  | _ => None
  end.

(** ** Vocabulary of the further properties *)

(** Every machine a computation can leave behind is related by [R] to the
    machine it started on, whether it returns or raises. *)
Definition respects {A : Type} (R : Machine → Machine → Prop) (c : M A) : Prop :=
  ∀ m, R m (final (c m)).

(** No register and no memory cell has disappeared. *)
Definition grows (m m' : Machine) : Prop :=
  dom (regs m) ⊆ dom (regs m') ∧ dom (mem m) ⊆ dom (mem m').

(** Output has only been appended to, input only consumed from the front. *)
Definition streams (m m' : Machine) : Prop :=
  stdout m `prefix_of` stdout m' ∧ stdin m' `suffix_of` stdin m.

(** The condition flag holds 0 or 1. *)
Definition flag_ok (m : Machine) : Prop := cond m = 0 ∨ cond m = 1.
Definition flag_step (m m' : Machine) : Prop := flag_ok m → flag_ok m'.

(** The opcodes the dispatch table has a handler for. *)
Definition handled (op : value) : Prop :=
  ∃ z, op = VInt z ∧ 0 ≤ z ≤ 15 ∧ z ≠ LOG.

(** The operands [mem_op] takes for an I/O channel instead of a register. *)
Definition io_operand (r : value) : Prop :=
  r = VInt IO_IN_LIT ∨ r = VInt IO_NUM_LIT ∨ r = VInt IO_CHR_LIT.

(** What each comparison mode asks of two integers. *)
Definition compare (mode : value) (a b : Z) : option bool :=
  if bool_decide (mode = VInt EQ) then Some (bool_decide (a = b))
  else if bool_decide (mode = VInt NEQ) then Some (bool_decide (a ≠ b))
  else if bool_decide (mode = VInt LT) then Some (bool_decide (a < b))
  else if bool_decide (mode = VInt GT) then Some (bool_decide (b < a))
  else if bool_decide (mode = VInt LTE) then Some (bool_decide (a ≤ b))
  else if bool_decide (mode = VInt GTE) then Some (bool_decide (b ≤ a))
  else None.

(** The next iteration of the loop is a load from an address never
    stored to: a MEM tuple with mode LOAD, its source operand not the
    input literal, the address in the source register absent from the
    data memory. *)
Definition unset_load (m : Machine) : Prop :=
  ∃ pc dst src a tl,
    regs m !! VInt PC = Some (VInt pc)
    ∧ fetch m = Some (VInt MEM :: dst :: src :: VInt LOAD :: tl)
    ∧ src ≠ VInt IO_IN_LIT
    ∧ regs (advance_pc pc m) !! src = Some a
    ∧ mem m !! a = None.

(** ** Basic facts about the monad and the primitives *)

Lemma bind_Ret {A B} (c : M A) (k : A → M B) m a m' :
  c m = Ret a m' → (c ≫= k) m = k a m'.
Proof. intros H. unfold mbind, M_bind. by rewrite H. Qed.

Lemma bind_Exc {A B} (c : M A) (k : A → M B) m e m' :
  c m = Exc e m' → (c ≫= k) m = Exc e m'.
Proof. intros H. unfold mbind, M_bind. by rewrite H. Qed.

Lemma get_reg_Some m r v : regs m !! r = Some v → get_reg r m = Ret v m.
Proof. intros H. unfold get_reg, gets, dict_get, mbind, M_bind. by rewrite H. Qed.

Lemma get_reg_None m r : regs m !! r = None → get_reg r m = Exc KeyError m.
Proof. intros H. unfold get_reg, gets, dict_get, mbind, M_bind. by rewrite H. Qed.

Lemma get_mem_Some m a v : mem m !! a = Some v → get_mem a m = Ret v m.
Proof. intros H. unfold get_mem, gets, dict_get, mbind, M_bind. by rewrite H. Qed.

Lemma get_mem_None m a : mem m !! a = None → get_mem a m = Exc KeyError m.
Proof. intros H. unfold get_mem, gets, dict_get, mbind, M_bind. by rewrite H. Qed.

Lemma item_0 a l : item (a :: l) 0 = mret a.
Proof. reflexivity. Qed.
Lemma item_1 a b l : item (a :: b :: l) 1 = mret b.
Proof. reflexivity. Qed.
Lemma item_2 a b c l : item (a :: b :: c :: l) 2 = mret c.
Proof. reflexivity. Qed.
Lemma item_3 a b c d l : item (a :: b :: c :: d :: l) 3 = mret d.
Proof. reflexivity. Qed.

(** Reading the operands of a tuple that has them. *)
Ltac operands :=
  rewrite ?item_0, ?item_1, ?item_2, ?item_3;
  unfold mbind, M_bind, mret, M_ret; cbn beta iota.

(** ** The loop body *)

(** A successful fetch: the loop advances PC and dispatches on the
    first component of the fetched tuple. *)
Lemma step_dispatch (m : Machine) (pc : Z) (op : value) (rest : list value) :
  regs m !! VInt PC = Some (VInt pc) →
  py_index (program m) pc = Some (op :: rest) →
  step m = dispatch op rest (advance_pc pc m).
Proof.
  intros Hpc Hf. unfold step.
  rewrite (bind_Ret _ _ _ _ _ (get_reg_Some _ _ _ Hpc)).
  unfold gets at 1. unfold mbind at 1, M_bind at 1.
  unfold py_getitem at 1. rewrite Hf. unfold mbind at 1, M_bind at 1. cbn [mret M_ret].
  rewrite (bind_Ret _ _ _ _ _ (get_reg_Some _ _ _ Hpc)).
  cbn [py_add py_arith]. unfold mbind at 1, M_bind at 1. cbn [mret M_ret].
  unfold mbind at 1, M_bind at 1. cbn [put_reg modify].
  rewrite item_0. reflexivity.
Qed.

(** The handler of the fetched opcode runs on the machine whose PC has
    already been advanced. *)
Lemma step_fetch (m : Machine) (pc : Z) (op : value) (rest : list value)
    (h : list value → M unit) :
  regs m !! VInt PC = Some (VInt pc) →
  py_index (program m) pc = Some (op :: rest) →
  ops !! op = Some h →
  step m = h rest (advance_pc pc m).
Proof.
  intros Hpc Hf Hop. rewrite (step_dispatch _ _ _ _ Hpc Hf).
  unfold dispatch, dict_get. by rewrite Hop.
Qed.

(** An opcode without handler: KeyError from the dispatch table. *)
Lemma step_no_handler (m : Machine) (pc : Z) (op : value) (rest : list value) :
  regs m !! VInt PC = Some (VInt pc) →
  py_index (program m) pc = Some (op :: rest) →
  ops !! op = None →
  step m = Exc KeyError (advance_pc pc m).
Proof.
  intros Hpc Hf Hop. rewrite (step_dispatch _ _ _ _ Hpc Hf).
  unfold dispatch, dict_get. by rewrite Hop.
Qed.

(** A failed fetch raises IndexError and leaves the machine untouched. *)
Lemma step_fetch_fail (m : Machine) (pc : Z) :
  regs m !! VInt PC = Some (VInt pc) →
  py_index (program m) pc = None →
  step m = Exc IndexError m.
Proof.
  intros Hpc Hf. unfold step.
  rewrite (bind_Ret _ _ _ _ _ (get_reg_Some _ _ _ Hpc)).
  unfold gets at 1. unfold mbind at 1, M_bind at 1.
  unfold py_getitem at 1. rewrite Hf. reflexivity.
Qed.

(** An empty tuple in the program: IndexError from [instruct[0]]. *)
Lemma step_empty_tuple (m : Machine) (pc : Z) :
  regs m !! VInt PC = Some (VInt pc) →
  py_index (program m) pc = Some [] →
  step m = Exc IndexError (advance_pc pc m).
Proof.
  intros Hpc Hf. unfold step.
  rewrite (bind_Ret _ _ _ _ _ (get_reg_Some _ _ _ Hpc)).
  unfold gets at 1. unfold mbind at 1, M_bind at 1.
  unfold py_getitem at 1. rewrite Hf. unfold mbind at 1, M_bind at 1. cbn [mret M_ret].
  rewrite (bind_Ret _ _ _ _ _ (get_reg_Some _ _ _ Hpc)).
  reflexivity.
Qed.

(** The loop body when PC is None or missing (never the case inside
    [run], which tests PC first). *)
Lemma step_pc_None (m : Machine) :
  regs m !! VInt PC = Some VNone → step m = Exc TypeError m.
Proof.
  intros Hpc. unfold step.
  by rewrite (bind_Ret _ _ _ _ _ (get_reg_Some _ _ _ Hpc)).
Qed.

Lemma step_pc_missing (m : Machine) :
  regs m !! VInt PC = None → step m = Exc KeyError m.
Proof.
  intros Hpc. unfold step.
  by rewrite (bind_Exc _ _ _ _ _ (get_reg_None _ _ Hpc)).
Qed.

(** Python's indexing raises exactly outside [-len, len). *)
Lemma py_index_None {A} (l : list A) (i : Z) :
  py_index l i = None ↔ (Z.of_nat (length l) ≤ i ∨ i < - Z.of_nat (length l)).
Proof.
  unfold py_index. repeat case_bool_decide.
  - rewrite lookup_ge_None. lia.
  - rewrite lookup_ge_None. lia.
  - split; [lia | done].
Qed.

Lemma py_index_nonneg {A} (l : list A) (i : Z) :
  0 ≤ i → py_index l i = l !! Z.to_nat i.
Proof. intros H. unfold py_index. by rewrite bool_decide_true. Qed.

(** One iteration of [run] whose body returns normally. *)
Lemma run_step (fuel : nat) (m m' : Machine) (pc : Z) :
  regs m !! VInt PC = Some (VInt pc) →
  step m = Ret tt m' →
  run (S fuel) m = run fuel m'.
Proof.
  intros Hpc Hs. cbn [run]. rewrite (get_reg_Some _ _ _ Hpc). by rewrite Hs.
Qed.

(** [run] when PC indexes nothing: the IndexError of the fetch is caught
    and [run] returns 0, no handler having run. *)
Lemma run_index_error (fuel : nat) (m : Machine) (pc : Z) :
  regs m !! VInt PC = Some (VInt pc) →
  py_index (program m) pc = None →
  run (S fuel) m = Some (Ret (VInt 0) m).
Proof.
  intros Hpc Hf. cbn [run]. rewrite (get_reg_Some _ _ _ Hpc).
  by rewrite (step_fetch_fail _ _ Hpc Hf).
Qed.

(** [run] when PC is None: the loop condition fails and [run] falls off
    its end, returning None. *)
Lemma run_pc_None (fuel : nat) (m : Machine) :
  regs m !! VInt PC = Some VNone →
  run (S fuel) m = Some (Ret VNone m).
Proof. intros Hpc. cbn [run]. by rewrite (get_reg_Some _ _ _ Hpc). Qed.

(** ** The model at work *)

(** The sample program with [MAX_NUM = 30] prints 2 3 5 7 B D 11 13 17 1D,
    one number a line, and ends through the [(JMPC, None)] at index 9. *)
Example prog_30_prints_primes_in_hex :
  let o := run 2000 (Machine_init (prog 30) []) in
  printed o =
    Some [ OutChar 50; OutNewline; OutChar 51; OutNewline; OutChar 53; OutNewline;
           OutChar 55; OutNewline; OutChar 66; OutNewline; OutChar 68; OutNewline;
           OutChar 49; OutChar 49; OutNewline; OutChar 49; OutChar 51; OutNewline;
           OutChar 49; OutChar 55; OutNewline; OutChar 49; OutChar 68; OutNewline ]
  ∧ ∃ m, o = Some (Ret VNone m).
Proof. vm_compute. split; [reflexivity | eauto]. Qed.

Example add_prog_prints_8 :
  ∃ m, run 6 (Machine_init add_prog []) = Some (Ret (VInt 0) m)
       ∧ stdout m = [OutValue (VInt 8)]
       ∧ regs m !! VInt PC = Some (VInt 99).
Proof. vm_compute. eauto. Qed.

Example lifo_prog_pops_in_reverse :
  ∃ m, run 7 (Machine_init lifo_prog []) = Some (Ret (VInt 0) m)
       ∧ regs m !! VInt R_2 = Some (VInt 2)
       ∧ regs m !! VInt R_3 = Some (VInt 1)
       ∧ stack m = [].
Proof. vm_compute. eauto 6. Qed.

(** ** Halting on an out-of-range PC (C1) *)

(** Where the source's convention works: a PC at or past the end of the
    program, or below [-len(program)], ends [run] with the value 0, the
    machine exactly as it was. *)
Lemma run_halts_outside_index_range (fuel : nat) (m : Machine) (pc : Z) :
  regs m !! VInt PC = Some (VInt pc) →
  Z.of_nat (length (program m)) ≤ pc ∨ pc < - Z.of_nat (length (program m)) →
  run (S fuel) m = Some (Ret (VInt 0) m).
Proof.
  intros Hpc Hr. apply (run_index_error _ _ pc Hpc). by apply py_index_None.
Qed.

(** Where it does not: for [-len(program) <= pc < 0] the fetch succeeds,
    with the tuple at [len(program) + pc], and the loop dispatches on it. *)
Lemma py_index_negative {A} (l : list A) (i : Z) :
  - Z.of_nat (length l) ≤ i < 0 →
  py_index l i = l !! Z.to_nat (Z.of_nat (length l) + i) ∧ is_Some (py_index l i).
Proof.
  intros Hi. unfold py_index.
  rewrite bool_decide_false by lia. rewrite bool_decide_true by lia.
  split; [done|]. apply lookup_lt_is_Some. lia.
Qed.

Lemma step_negative_pc (m : Machine) (pc : Z) (op : value) (rest : list value) :
  regs m !! VInt PC = Some (VInt pc) →
  - Z.of_nat (length (program m)) ≤ pc < 0 →
  program m !! Z.to_nat (Z.of_nat (length (program m)) + pc) = Some (op :: rest) →
  step m = dispatch op rest (advance_pc pc m).
Proof.
  intros Hpc Hr Hf. apply (step_dispatch _ _ _ _ Hpc).
  by rewrite (proj1 (py_index_negative _ _ Hr)).
Qed.

(** C1, evaluated on [neg_pc_prog].  The first instruction leaves PC = -1,
    a value outside [0, len(program)).  [run] does not halt there: the
    fetch [program[-1]] yields the last instruction, its handler runs, and
    the KeyError of that handler leaves [run] as a fault. *)
Theorem negative_pc_fetches_from_the_end :
  let m0 := Machine_init neg_pc_prog [] in
  let m1 := jump_to (VInt (-1)) m0 in
  step m0 = Ret tt m1
  ∧ regs m1 !! VInt PC = Some (VInt (-1))
  ∧ fetch m1 = Some [VInt MEM; VInt R_0; VInt R_1; VInt LOAD]
  ∧ run 2 m1 = Some (Exc KeyError (jump_to (VInt 0) m0))
  ∧ run 3 m0 = Some (Exc KeyError (jump_to (VInt 0) m0)).
Proof. vm_compute. repeat split; reflexivity. Qed.

(** ** Popping an empty stack (C2) *)

(** The IndexError of [list.pop] is caught by the clause meant for the
    fetch, whatever the fuel: [run] returns 0. *)
Lemma run_empty_pop (fuel : nat) (m : Machine) (pc : Z) (reg : value) (tl : list value) :
  regs m !! VInt PC = Some (VInt pc) →
  py_index (program m) pc = Some (VInt STCK :: reg :: VInt POP :: tl) →
  stack m = [] →
  run (S fuel) m = Some (Ret (VInt 0) (advance_pc pc m)).
Proof.
  intros Hpc Hf Hs. cbn [run]. rewrite (get_reg_Some _ _ _ Hpc).
  rewrite (step_fetch _ _ _ _ stck_op Hpc Hf) by reflexivity.
  unfold stck_op. operands.
  rewrite bool_decide_false by done. rewrite bool_decide_true by done.
  unfold stack_pop. cbn [stack advance_pc set_regs]. by rewrite Hs.
Qed.

(** C2, evaluated on [empty_pop_prog].  The pop raises IndexError inside
    [stck_op]; [run] catches it and returns 0, the very result of running
    off the end of the program, with R_0 untouched and the instruction
    after the pop never executed. *)
Theorem empty_stack_pop_returns_normally :
  let m0 := Machine_init empty_pop_prog [] in
  stck_op [VInt R_0; VInt POP] (advance_pc 0 m0) = Exc IndexError (advance_pc 0 m0)
  ∧ run 1 m0 = Some (Ret (VInt 0) (advance_pc 0 m0))
  ∧ run 5 m0 = Some (Ret (VInt 0) (advance_pc 0 m0))
  ∧ run 1 (jump_to (VInt 2) m0) = Some (Ret (VInt 0) (jump_to (VInt 2) m0)).
Proof. vm_compute. repeat split; reflexivity. Qed.

(** ** Loading from an address never stored to (C3) *)

Lemma ops_MEM : ops !! VInt MEM = Some mem_op.
Proof. reflexivity. Qed.

(** C3, as the code has it.  Let [m] be the machine on which the handler
    of a MEM instruction with mode LOAD runs, its source operand not the
    input sentinel, and let the address [regs[src]] be absent from data
    memory.  Then [mem_op] raises the host's KeyError and writes nothing
    (neither [regs[dst]] nor anything else changes, so no zero is
    loaded), and a [run] whose loop has fetched that instruction ends
    with that KeyError uncaught, whatever fuel is left. *)
Theorem unset_memory_load_raises (m : Machine) (dst src a : value) (tl : list value) :
  src ≠ VInt IO_IN_LIT →
  regs m !! src = Some a →
  mem m !! a = None →
  mem_op (dst :: src :: VInt LOAD :: tl) m = Exc KeyError m
  ∧ ∀ (m0 : Machine) (pc : Z) (fuel : nat),
      regs m0 !! VInt PC = Some (VInt pc) →
      py_index (program m0) pc = Some (VInt MEM :: dst :: src :: VInt LOAD :: tl) →
      advance_pc pc m0 = m →
      run (S fuel) m0 = Some (Exc KeyError m).
Proof.
  intros Hs Hr Hm.
  assert (mem_op (dst :: src :: VInt LOAD :: tl) m = Exc KeyError m) as Hop.
  { unfold mem_op. operands.
    rewrite bool_decide_true by done. rewrite bool_decide_false by done.
    by rewrite (get_reg_Some _ _ _ Hr), (get_mem_None _ _ Hm). }
  split; [exact Hop|].
  intros m0 pc fuel Hpc Hf <-. cbn [run]. rewrite (get_reg_Some _ _ _ Hpc).
  by rewrite (step_fetch _ _ _ _ _ Hpc Hf ops_MEM), Hop.
Qed.

Lemma unset_memory_load_raises_witness :
  let m0 := Machine_init unset_load_prog [] in
  (VInt R_1 ≠ VInt IO_IN_LIT
   ∧ regs (advance_pc 0 m0) !! VInt R_1 = Some (VInt 0)
   ∧ mem (advance_pc 0 m0) !! VInt 0 = None)
  ∧ mem_op [VInt R_0; VInt R_1; VInt LOAD] (advance_pc 0 m0) = Exc KeyError (advance_pc 0 m0)
  ∧ run 1 m0 = Some (Exc KeyError (advance_pc 0 m0)).
Proof.
  intros m0.
  assert (VInt R_1 ≠ VInt IO_IN_LIT) as H1 by done.
  assert (regs (advance_pc 0 m0) !! VInt R_1 = Some (VInt 0)) as H2 by reflexivity.
  assert (mem (advance_pc 0 m0) !! VInt 0 = None) as H3 by reflexivity.
  split; [done|].
  destruct (unset_memory_load_raises (advance_pc 0 m0) (VInt R_0) (VInt R_1) (VInt 0) []
              H1 H2 H3) as [Hop Hrun].
  split; [exact Hop|].
  apply (Hrun m0 0 0%nat); reflexivity.
Defined.

(** C3, as it is stated, fails: KeyError is no kind of its own for the
    unset load.  A fetched opcode without handler (LOG) and a read of a
    register that does not exist (MOV from register 16) leave [run] with
    the same KeyError, on machines that load nothing from memory. *)
Lemma KeyError_is_shared_with_other_faults :
  let m1 := Machine_init unset_load_prog [] in
  let m2 := Machine_init [[VInt LOG]] [] in
  let m3 := Machine_init [[VInt MOV; VInt R_0; VInt 16]] [] in
  (unset_load m1 ∧ run 1 m1 = Some (Exc KeyError (advance_pc 0 m1)))
  ∧ (¬ unset_load m2 ∧ run 1 m2 = Some (Exc KeyError (advance_pc 0 m2)))
  ∧ (¬ unset_load m3 ∧ run 1 m3 = Some (Exc KeyError (advance_pc 0 m3)))
  ∧ ¬ (∀ m m', run 1 m = Some (Exc KeyError m') → unset_load m).
Proof.
  intros m1 m2 m3.
  assert (¬ unset_load m2) as H2.
  { intros (pc & dst & src & a & tl & _ & Hf & _). vm_compute in Hf. discriminate Hf. }
  assert (¬ unset_load m3) as H3.
  { intros (pc & dst & src & a & tl & _ & Hf & _). vm_compute in Hf. discriminate Hf. }
  assert (run 1 m2 = Some (Exc KeyError (advance_pc 0 m2))) as Hr2
    by (vm_compute; reflexivity).
  repeat split; try done.
  - exists 0, (VInt R_0), (VInt R_1), (VInt 0), []. by repeat split.
  - intros H. exact (H2 (H m2 _ Hr2)).
Qed.

(** ** Modes that MEM and STCK do not know (C9) *)

Lemma ops_STCK : ops !! VInt STCK = Some stck_op.
Proof. reflexivity. Qed.

Lemma mem_op_other_mode (m : Machine) (a b mode : value) (tl : list value) :
  mode ≠ VInt LOAD → mode ≠ VInt STOR →
  mem_op (a :: b :: mode :: tl) m = Ret tt m.
Proof.
  intros H1 H2. unfold mem_op. operands. by rewrite !bool_decide_false by done.
Qed.

Lemma stck_op_other_mode (m : Machine) (reg mode : value) (tl : list value) :
  mode ≠ VInt PUSH → mode ≠ VInt POP →
  stck_op (reg :: mode :: tl) m = Ret tt m.
Proof.
  intros H1 H2. unfold stck_op. operands. by rewrite !bool_decide_false by done.
Qed.

(** C9.  A MEM handler given a mode that is neither LOAD nor STOR, and a
    STCK handler given a mode that is neither PUSH nor POP, return normally
    with the machine (registers, memory, stack, flag, return address,
    input and output) exactly as they found it.  Seen from the loop, such
    an instruction only advances PC. *)
Theorem unknown_mem_stck_mode_is_noop (m : Machine) (a b mode : value) (tl : list value) :
  (mode ≠ VInt LOAD → mode ≠ VInt STOR →
     mem_op (a :: b :: mode :: tl) m = Ret tt m
     ∧ ∀ pc, regs m !! VInt PC = Some (VInt pc) →
         py_index (program m) pc = Some (VInt MEM :: a :: b :: mode :: tl) →
         step m = Ret tt (advance_pc pc m))
  ∧ (mode ≠ VInt PUSH → mode ≠ VInt POP →
     stck_op (a :: mode :: tl) m = Ret tt m
     ∧ ∀ pc, regs m !! VInt PC = Some (VInt pc) →
         py_index (program m) pc = Some (VInt STCK :: a :: mode :: tl) →
         step m = Ret tt (advance_pc pc m)).
Proof.
  split; intros H1 H2; split.
  - by apply mem_op_other_mode.
  - intros pc Hpc Hf. rewrite (step_fetch _ _ _ _ _ Hpc Hf ops_MEM).
    by apply mem_op_other_mode.
  - by apply stck_op_other_mode.
  - intros pc Hpc Hf. rewrite (step_fetch _ _ _ _ _ Hpc Hf ops_STCK).
    by apply stck_op_other_mode.
Qed.

Lemma unknown_mem_stck_mode_is_noop_witness :
  let m := Machine_init [[VInt MEM; VInt R_0; VInt R_1; VInt 2]] [] in
  let m' := Machine_init [[VInt STCK; VInt R_0; VInt 2]] [] in
  (VInt 2 ≠ VInt LOAD ∧ VInt 2 ≠ VInt STOR ∧ VInt 2 ≠ VInt PUSH ∧ VInt 2 ≠ VInt POP)
  ∧ mem_op [VInt R_0; VInt R_1; VInt 2] m = Ret tt m
  ∧ step m = Ret tt (advance_pc 0 m)
  ∧ stck_op [VInt R_0; VInt 2] m' = Ret tt m'
  ∧ step m' = Ret tt (advance_pc 0 m').
Proof.
  intros m m'.
  assert (VInt 2 ≠ VInt LOAD) as H1 by done.
  assert (VInt 2 ≠ VInt STOR) as H2 by done.
  split; [done|].
  destruct (unknown_mem_stck_mode_is_noop m (VInt R_0) (VInt R_1) (VInt 2) [])
    as [Hmem _].
  destruct (unknown_mem_stck_mode_is_noop m' (VInt R_0) (VInt R_1) (VInt 2) [])
    as [_ Hstck].
  destruct (Hmem H1 H2) as [Ha Hb]. destruct (Hstck H1 H2) as [Hc Hd].
  split; [exact Ha|]. split; [apply (Hb 0); reflexivity|].
  split; [exact Hc|]. apply (Hd 0); reflexivity.
Defined.

(** ** Jumping to None (C10) *)

Lemma ops_JMP : ops !! VInt JMP = Some jmp_op.
Proof. reflexivity. Qed.
Lemma ops_JMPC : ops !! VInt JMPC = Some jmpc_op.
Proof. reflexivity. Qed.
Lemma ops_JMPR : ops !! VInt JMPR = Some jmpr_op.
Proof. reflexivity. Qed.
Lemma ops_RET : ops !! VInt RET = Some ret_op.
Proof. reflexivity. Qed.
Lemma ops_COMP : ops !! VInt COMP = Some comp_op.
Proof. reflexivity. Qed.

Lemma jump_to_PC (t : value) (m : Machine) : regs (jump_to t m) !! VInt PC = Some t.
Proof. apply lookup_insert_eq. Qed.

Lemma advance_pc_PC (pc : Z) (m : Machine) :
  regs (advance_pc pc m) !! VInt PC = Some (VInt (pc + 1)).
Proof. apply lookup_insert_eq. Qed.

Lemma jmp_op_spec (m : Machine) (t : value) (tl : list value) :
  jmp_op (t :: tl) m = Ret tt (jump_to t m).
Proof. unfold jmp_op. by operands. Qed.

Lemma jmpc_op_spec (m : Machine) (t : value) (tl : list value) :
  jmpc_op (t :: tl) m = Ret tt (if bool_decide (cond m = 0) then jump_to t m else m).
Proof. unfold jmpc_op, gets. operands. by case_bool_decide. Qed.

Lemma jmpr_op_spec (m : Machine) (t pc : value) (tl : list value) :
  regs m !! VInt PC = Some pc →
  jmpr_op (t :: tl) m = Ret tt (jump_to t (set_ra pc m)).
Proof.
  intros Hpc. unfold jmpr_op. operands. by rewrite (get_reg_Some _ _ _ Hpc).
Qed.

Lemma ret_op_spec (m : Machine) (rest : list value) :
  ret_op rest m = Ret tt (jump_to (ra m) m).
Proof. reflexivity. Qed.

(** The loop tests PC before every fetch: a body that leaves None in PC
    is the last one to run, and [run] returns None. *)
Lemma run_stops_on_None (fuel : nat) (m m' : Machine) (pc : Z) :
  regs m !! VInt PC = Some (VInt pc) →
  step m = Ret tt m' →
  regs m' !! VInt PC = Some VNone →
  run (S (S fuel)) m = Some (Ret VNone m').
Proof.
  intros Hpc Hs Hn. rewrite (run_step _ _ _ _ Hpc Hs). by apply run_pc_None.
Qed.

(** C10.  When the instruction fetched at [pc] is a JMP, a JMPC taken
    (flag 0) or a JMPR whose target is None, its handler stores None in PC
    and [run] ends at the next test of the loop condition: it returns
    (the value None) with the machine as that handler left it, so no
    further instruction has run and no exception has been raised. *)
Theorem jump_to_None_ends_run (m : Machine) (pc : Z) (tl : list value) (fuel : nat) :
  regs m !! VInt PC = Some (VInt pc) →
  (py_index (program m) pc = Some (VInt JMP :: VNone :: tl) →
     run (S (S fuel)) m = Some (Ret VNone (jump_to VNone (advance_pc pc m))))
  ∧ (py_index (program m) pc = Some (VInt JMPC :: VNone :: tl) → cond m = 0 →
     run (S (S fuel)) m = Some (Ret VNone (jump_to VNone (advance_pc pc m))))
  ∧ (py_index (program m) pc = Some (VInt JMPR :: VNone :: tl) →
     run (S (S fuel)) m =
       Some (Ret VNone (jump_to VNone (set_ra (VInt (pc + 1)) (advance_pc pc m))))).
Proof.
  intros Hpc. repeat split.
  - intros Hf. apply (run_stops_on_None _ _ _ pc Hpc); [|apply jump_to_PC].
    by rewrite (step_fetch _ _ _ _ _ Hpc Hf ops_JMP), jmp_op_spec.
  - intros Hf Hc. apply (run_stops_on_None _ _ _ pc Hpc); [|apply jump_to_PC].
    rewrite (step_fetch _ _ _ _ _ Hpc Hf ops_JMPC), jmpc_op_spec.
    by rewrite bool_decide_true.
  - intros Hf. apply (run_stops_on_None _ _ _ pc Hpc); [|apply jump_to_PC].
    rewrite (step_fetch _ _ _ _ _ Hpc Hf ops_JMPR).
    by rewrite (jmpr_op_spec _ _ _ _ (advance_pc_PC pc m)).
Qed.

Lemma jump_to_None_ends_run_witness :
  let m1 := Machine_init [[VInt JMP; VNone]; [VInt LIMM; VInt R_0; VInt 5]] [] in
  let m2 := Machine_init [[VInt JMPC; VNone]; [VInt LIMM; VInt R_0; VInt 5]] [] in
  let m3 := Machine_init [[VInt JMPR; VNone]; [VInt LIMM; VInt R_0; VInt 5]] [] in
  (regs m1 !! VInt PC = Some (VInt 0) ∧ cond m2 = 0)
  ∧ run 2 m1 = Some (Ret VNone (jump_to VNone (advance_pc 0 m1)))
  ∧ run 2 m2 = Some (Ret VNone (jump_to VNone (advance_pc 0 m2)))
  ∧ run 2 m3 = Some (Ret VNone (jump_to VNone (set_ra (VInt 1) (advance_pc 0 m3)))).
Proof.
  intros m1 m2 m3. split; [by split|].
  assert (∀ p, regs (Machine_init p []) !! VInt PC = Some (VInt 0)) as Hpc by reflexivity.
  destruct (jump_to_None_ends_run m1 0 [] 0%nat (Hpc _)) as (H1 & _ & _).
  destruct (jump_to_None_ends_run m2 0 [] 0%nat (Hpc _)) as (_ & H2 & _).
  destruct (jump_to_None_ends_run m3 0 [] 0%nat (Hpc _)) as (_ & _ & H3).
  split; [apply H1; reflexivity|].
  split; [apply H2; reflexivity|].
  apply H3; reflexivity.
Defined.

(** ** The polarity of JMPC (C4) *)

Lemma comp_op_EQ (m : Machine) (r1 r2 v1 v2 : value) (tl : list value) :
  regs m !! r1 = Some v1 → regs m !! r2 = Some v2 →
  comp_op (r1 :: r2 :: VInt EQ :: tl) m = Ret tt (set_cond (py_eq v1 v2) m).
Proof.
  intros H1 H2. unfold comp_op. operands. rewrite bool_decide_true by done.
  by rewrite (get_reg_Some _ _ _ H1), (get_reg_Some _ _ _ H2).
Qed.

Lemma py_eq_refl (v : value) : py_eq v v = 1.
Proof. unfold py_eq. by rewrite bool_decide_true. Qed.

(** C4.  The handler of JMPC with target [t] assigns [t] to PC when the
    condition flag is 0 and leaves the whole machine as it is when the
    flag is not 0 (1 is the only such value COMP ever writes).  And when
    the loop runs a COMP with mode EQ on two registers that hold the same
    value and then a JMPC, the flag is 1 and PC is two past the COMP:
    execution fell through, whatever the target. *)
Theorem jmpc_branches_on_zero_flag (m : Machine) (t : value) (tl : list value) :
  (cond m = 0 → jmpc_op (t :: tl) m = Ret tt (jump_to t m))
  ∧ (cond m ≠ 0 → jmpc_op (t :: tl) m = Ret tt m)
  ∧ (∀ (pc : Z) (r1 r2 v : value) (tl1 : list value),
       regs m !! VInt PC = Some (VInt pc) →
       py_index (program m) pc = Some (VInt COMP :: r1 :: r2 :: VInt EQ :: tl1) →
       py_index (program m) (pc + 1) = Some (VInt JMPC :: t :: tl) →
       regs (advance_pc pc m) !! r1 = Some v →
       regs (advance_pc pc m) !! r2 = Some v →
       (step ;; step) m = Ret tt (set_cond 1 (advance_pc (pc + 1) m))).
Proof.
  split; [|split].
  - intros Hc. rewrite jmpc_op_spec. by rewrite bool_decide_true.
  - intros Hc. rewrite jmpc_op_spec. by rewrite bool_decide_false.
  - intros pc r1 r2 v tl1 Hpc Hf1 Hf2 H1 H2.
    assert (step m = Ret tt (set_cond 1 (advance_pc pc m))) as Hs1.
    { rewrite (step_fetch _ _ _ _ _ Hpc Hf1 ops_COMP).
      by rewrite (comp_op_EQ _ _ _ _ _ _ H1 H2), py_eq_refl. }
    rewrite (bind_Ret _ _ _ _ _ Hs1).
    rewrite (step_fetch (set_cond 1 (advance_pc pc m)) (pc + 1) _ _ jmpc_op
               (advance_pc_PC pc m) Hf2 ops_JMPC).
    rewrite jmpc_op_spec. rewrite bool_decide_false by done.
    unfold advance_pc, set_cond, set_regs. cbn. by rewrite insert_insert_eq.
Qed.

Lemma jmpc_branches_on_zero_flag_witness :
  let m := Machine_init [[VInt COMP; VInt R_0; VInt R_1; VInt EQ]; [VInt JMPC; VInt 99]] [] in
  (cond m = 0 ∧ cond (set_cond 1 m) ≠ 0
   ∧ regs (advance_pc 0 m) !! VInt R_0 = regs (advance_pc 0 m) !! VInt R_1)
  ∧ jmpc_op [VInt 99] m = Ret tt (jump_to (VInt 99) m)
  ∧ jmpc_op [VInt 99] (set_cond 1 m) = Ret tt (set_cond 1 m)
  ∧ (step ;; step) m = Ret tt (set_cond 1 (advance_pc 1 m))
  ∧ regs (set_cond 1 (advance_pc 1 m)) !! VInt PC = Some (VInt 2).
Proof.
  intros m.
  assert (cond m = 0) as H0 by reflexivity.
  assert (cond (set_cond 1 m) ≠ 0) as H1 by done.
  split; [by repeat split|].
  destruct (jmpc_branches_on_zero_flag m (VInt 99) []) as (Ha & _ & Hc).
  destruct (jmpc_branches_on_zero_flag (set_cond 1 m) (VInt 99) []) as (_ & Hb & _).
  split; [exact (Ha H0)|]. split; [exact (Hb H1)|].
  split; [|reflexivity].
  apply (Hc 0 (VInt R_0) (VInt R_1) (VInt 0) []); reflexivity.
Defined.

(** ** DIV is floor division (C5) *)

(** The host's [//] on integers is [Z.div]; it meets the floor
    specification, which determines it. *)
Lemma Zdiv_floor_quotient (a b : Z) : b ≠ 0 → floor_quotient a b (a `div` b).
Proof.
  intros Hb. unfold floor_quotient.
  pose proof (Z.div_mod a b Hb) as Hdm.
  destruct (Z.lt_total 0 b) as [Hp | [Hz | Hn]]; [left | lia | right].
  - pose proof (Z.mod_pos_bound a b Hp). lia.
  - pose proof (Z.mod_neg_bound a b Hn). lia.
Qed.

Lemma floor_quotient_unique (a b q : Z) : floor_quotient a b q → q = a `div` b.
Proof.
  intros [[Hb H] | [Hb H]].
  - apply (Z.div_unique_pos a b q (a - b * q)); lia.
  - apply (Z.div_unique_neg a b q (a - b * q)); lia.
Qed.

(** With operands of opposite signs and an inexact quotient, the floor is
    one below the quotient truncated toward zero ([Z.quot]). *)
Lemma floor_vs_trunc (a b : Z) :
  (a < 0 < b ∨ b < 0 < a) → a `mod` b ≠ 0 → a `div` b = a `quot` b - 1.
Proof.
  intros Hs Hm.
  assert (b ≠ 0) as Hb by lia.
  pose proof (Z.quot_rem' a b) as Hq.
  pose proof (Z.rem_bound_abs a b Hb) as Habs.
  pose proof (Z.rem_sign_mul a b Hb) as Hsgn.
  assert (Z.rem a b ≠ 0) as Hr.
  { intros Hr. apply Hm. apply Z.rem_divide in Hr; [|done]. by apply Z.mod_divide. }
  symmetry. apply floor_quotient_unique. unfold floor_quotient.
  destruct Hs as [[Ha Hb'] | [Hb' Ha]]; [left | right]; (split; [lia|]); nia.
Qed.

(** C5.  For integers [a] and [b] with [b] nonzero, MATH with mode DIV
    on registers holding [a] and [b], and MATHI with mode DIV on a
    register holding [a] with literal [b], store the same [q] in the
    destination register, and [q] is the floor of [a / b]: for operands
    of opposite signs where [b] does not divide [a] it is one below the
    quotient truncated toward zero, and for -7 and 2 it is -4. *)
Theorem div_is_floor_division (m : Machine) (dst src1 src2 : value) (a b : Z)
    (tl : list value) :
  b ≠ 0 →
  ∃ q : Z,
    floor_quotient a b q
    ∧ ((a < 0 < b ∨ b < 0 < a) → ¬ (b | a) → q = a `quot` b - 1)
    ∧ (a = -7 → b = 2 → q = -4)
    ∧ (regs m !! src1 = Some (VInt a) → regs m !! src2 = Some (VInt b) →
         math_op (dst :: src1 :: src2 :: VInt DIV :: tl) m
         = Ret tt (set_regs (<[dst := VInt q]> (regs m)) m))
    ∧ (regs m !! dst = Some (VInt a) →
         mathi_op (dst :: VInt DIV :: VInt b :: tl) m
         = Ret tt (set_regs (<[dst := VInt q]> (regs m)) m)).
Proof.
  intros Hb. exists (a `div` b). repeat split.
  - by apply Zdiv_floor_quotient.
  - intros Hs Hd. apply floor_vs_trunc; [done|].
    intros Hm. apply Hd. by apply Z.mod_divide.
  - by intros -> ->.
  - intros H1 H2. unfold math_op. operands.
    rewrite !bool_decide_false by done. rewrite bool_decide_true by done.
    rewrite (get_reg_Some _ _ _ H1), (get_reg_Some _ _ _ H2).
    cbn [py_floordiv]. by rewrite bool_decide_false by done.
  - intros H1. unfold mathi_op. operands.
    rewrite !bool_decide_false by done. rewrite bool_decide_true by done.
    rewrite (get_reg_Some _ _ _ H1).
    cbn [py_floordiv]. by rewrite bool_decide_false by done.
Qed.

Lemma div_is_floor_division_witness :
  (2 ≠ 0 ∧ (-7 < 0 < 2 ∨ 2 < 0 < -7) ∧ ¬ (2 | -7))
  ∧ math_op [VInt R_2; VInt R_0; VInt R_1; VInt DIV] div_machine
    = Ret tt (set_regs (<[VInt R_2 := VInt (-4)]> (regs div_machine)) div_machine)
  ∧ mathi_op [VInt R_0; VInt DIV; VInt 2] div_machine
    = Ret tt (set_regs (<[VInt R_0 := VInt (-4)]> (regs div_machine)) div_machine)
  ∧ -4 = (-7) `quot` 2 - 1.
Proof.
  assert (2 ≠ 0) as Hb by lia.
  assert (-7 < 0 < 2 ∨ 2 < 0 < -7) as Hs by lia.
  assert (¬ (2 | -7)) as Hd.
  { intros [k Hk]. lia. }
  split; [done|].
  destruct (div_is_floor_division div_machine (VInt R_2) (VInt R_0) (VInt R_1) (-7) 2 [] Hb)
    as (q & _ & _ & Hq & Hmath & _).
  destruct (div_is_floor_division div_machine (VInt R_0) (VInt R_0) (VInt R_1) (-7) 2 [] Hb)
    as (q' & _ & Ht & Hq' & _ & Hmathi).
  rewrite <- (Hq eq_refl eq_refl) at 1. rewrite <- (Hq' eq_refl eq_refl) at 1.
  split; [by apply Hmath|]. split; [by apply Hmathi|].
  rewrite <- (Hq' eq_refl eq_refl) at 1. by apply Ht.
Defined.

(** ** Components of the machine that a computation leaves alone *)

Section preservation.
Context {X : Type} (f : Machine → X).

Lemma preserves_ret {A} (a : A) : preserves f (mret a).
Proof. by intros m. Qed.

Lemma preserves_raise {A} (e : exn) : preserves f (@raise A e).
Proof. by intros m. Qed.

Lemma preserves_gets {A} (g : Machine → A) : preserves f (gets g).
Proof. by intros m. Qed.

Lemma preserves_bind {A B} (c : M A) (k : A → M B) :
  preserves f c → (∀ a, preserves f (k a)) → preserves f (c ≫= k).
Proof.
  intros Hc Hk m. unfold mbind, M_bind. specialize (Hc m).
  destruct (c m) as [a m'|e m']; cbn in *; [|done].
  by rewrite Hk.
Qed.

Lemma preserves_modify (g : Machine → Machine) :
  (∀ m, f (g m) = f m) → preserves f (modify g).
Proof. intros Hg m. apply Hg. Qed.

Lemma preserves_dict_get {V} (d : gmap value V) (k : value) : preserves f (dict_get d k).
Proof. intros m. unfold dict_get. by destruct (d !! k). Qed.

Lemma preserves_get_reg (r : value) : preserves f (get_reg r).
Proof. apply preserves_bind; [apply preserves_gets|]. intros d. apply preserves_dict_get. Qed.

Lemma preserves_get_mem (a : value) : preserves f (get_mem a).
Proof. apply preserves_bind; [apply preserves_gets|]. intros d. apply preserves_dict_get. Qed.

Lemma preserves_py_getitem {A} (l : list A) (i : value) : preserves f (py_getitem l i).
Proof. intros m. unfold py_getitem. destruct i as [|z]; [done|]. by destruct (py_index l z). Qed.

Lemma preserves_item (rest : list value) (k : Z) : preserves f (item rest k).
Proof. apply preserves_py_getitem. Qed.

Lemma preserves_py_arith (g : Z → Z → Z) (a b : value) : preserves f (py_arith g a b).
Proof. intros m. by destruct a, b. Qed.

Lemma preserves_py_floordiv (a b : value) : preserves f (py_floordiv a b).
Proof. intros m. destruct a as [|x], b as [|y]; try done. cbn. by case_bool_decide. Qed.

Lemma preserves_py_order (g : Z → Z → bool) (a b : value) : preserves f (py_order g a b).
Proof. intros m. by destruct a, b. Qed.

Lemma preserves_py_chr (v : value) : preserves f (py_chr v).
Proof. intros m. destruct v as [|c]; [done|]. cbn. by repeat case_bool_decide. Qed.

Lemma preserves_py_input_int :
  (∀ i m, f (set_stdin i m) = f m) → preserves f py_input_int.
Proof. intros Hf m. unfold py_input_int. destruct (stdin m) as [|[z|] tl]; cbn; auto. Qed.

Lemma preserves_stack_pop :
  (∀ s m, f (set_stack s m) = f m) → preserves f stack_pop.
Proof. intros Hf m. unfold stack_pop. destruct (last (stack m)); cbn; auto. Qed.
End preservation.

(** Goes through a handler primitive by primitive. *)
Ltac preserves_step :=
  first
    [ apply preserves_get_reg
    | apply preserves_get_mem
    | apply preserves_item
    | match goal with |- preserves _ (_ ≫= _) => apply preserves_bind; [|intros ?] end
    | apply preserves_ret
    | apply preserves_raise
    | apply preserves_gets
    | apply preserves_py_arith
    | apply preserves_py_floordiv
    | apply preserves_py_order
    | apply preserves_py_chr
    | apply preserves_py_input_int; intros ? ?; reflexivity
    | apply preserves_stack_pop; intros ? ?; reflexivity
    | apply preserves_modify; intros ?; reflexivity
    | case_bool_decide
    | match goal with |- preserves _ (if ?b then _ else _) => destruct b end ].

Ltac preserves_tac := repeat preserves_step.

(** No handler writes the program store. *)
Lemma ops_preserve_program (op : value) (h : list value → M unit) (rest : list value) :
  ops !! op = Some h → preserves program (h rest).
Proof.
  intros Hop. apply elem_of_list_to_map_2 in Hop.
  repeat (apply elem_of_cons in Hop as [Hop | Hop]; [injection Hop as -> ->|]);
    [..|by apply elem_of_nil in Hop].
  all: unfold mov_op, mem_op, limm_op, math_op, mathi_op, comp_op, cnt_op, loop_op,
    jmp_op, jmpc_op, jmpr_op, ret_op, inc_op, dec_op, stck_op, put_reg, put_mem,
    print_value, print_format, print_char, py_str_check, emit, quit, stack_append,
    py_add, py_sub, py_mul.
  all: preserves_tac.
Qed.

(** Only the handler of JMPR writes the return-address register. *)
Lemma ops_preserve_ra (op : value) (h : list value → M unit) (rest : list value) :
  ops !! op = Some h → op ≠ VInt JMPR → preserves ra (h rest).
Proof.
  intros Hop Hne. apply elem_of_list_to_map_2 in Hop.
  repeat (apply elem_of_cons in Hop as [Hop | Hop]; [injection Hop as -> ->|]);
    [..|by apply elem_of_nil in Hop]; try done.
  all: unfold mov_op, mem_op, limm_op, math_op, mathi_op, comp_op, cnt_op, loop_op,
    jmp_op, jmpc_op, ret_op, inc_op, dec_op, stck_op, put_reg, put_mem,
    print_value, print_format, print_char, py_str_check, emit, quit, stack_append,
    py_add, py_sub, py_mul.
  all: preserves_tac.
Qed.

Lemma fetch_Some (m : Machine) (ins : list value) :
  fetch m = Some ins →
  ∃ pc, regs m !! VInt PC = Some (VInt pc) ∧ py_index (program m) pc = Some ins.
Proof.
  unfold fetch. destruct (regs m !! VInt PC) as [[|pc]|]; try done. eauto.
Qed.

Lemma step_preserves_program : preserves program step.
Proof.
  unfold step, put_reg, py_add. preserves_tac.
  - apply preserves_py_getitem.
  - intros m. unfold dispatch, mbind, M_bind, dict_get.
    destruct (ops !! _) as [h|] eqn:Hop; [|done].
    apply (ops_preserve_program _ _ _ Hop).
Qed.

Lemma step_preserves_ra (m m' : Machine) (op : value) (rest : list value) :
  fetch m = Some (op :: rest) → op ≠ VInt JMPR → step m = Ret tt m' → ra m' = ra m.
Proof.
  intros (pc & Hpc & Hf)%fetch_Some Hne Hs.
  destruct (ops !! op) as [h|] eqn:Hop.
  - rewrite (step_fetch _ _ _ _ _ Hpc Hf Hop) in Hs.
    pose proof (ops_preserve_ra _ _ rest Hop Hne (advance_pc pc m)) as Hp.
    by rewrite Hs in Hp.
  - by rewrite (step_no_handler _ _ _ _ Hpc Hf Hop) in Hs.
Qed.

Lemma exec_no_jmpr_preserves (m m' : Machine) :
  exec_no_jmpr m m' → ra m' = ra m ∧ program m' = program m.
Proof.
  induction 1 as [m | m m1 m2 op rest Hf Hne Hs _ [IHra IHp]]; [done|].
  split.
  - rewrite IHra. by apply (step_preserves_ra _ _ _ _ Hf Hne).
  - rewrite IHp. pose proof (step_preserves_program m) as Hp. by rewrite Hs in Hp.
Qed.

(** ** Call and return (C6) *)

(** C6.  Let the loop fetch a JMPR with target [t] at PC = [i].  Its
    handler runs on the machine whose PC is already [i + 1]; it saves
    [i + 1] in the return-address register and then assigns [t] to PC.
    After any execution from there in which no JMPR is fetched, a
    fetched RET sets PC to [i + 1], so that the next fetch is
    [program[i + 1]], the instruction right after the JMPR. *)
Theorem jmpr_then_ret_returns_after_call (m m2 : Machine) (i : Z) (t : value)
    (tl tl' : list value) :
  regs m !! VInt PC = Some (VInt i) →
  py_index (program m) i = Some (VInt JMPR :: t :: tl) →
  exec_no_jmpr (after_call i t m) m2 →
  fetch m2 = Some (VInt RET :: tl') →
  step m = jmpr_op (t :: tl) (advance_pc i m)
  ∧ step m = Ret tt (after_call i t m)
  ∧ ra (after_call i t m) = VInt (i + 1)
  ∧ regs (after_call i t m) !! VInt PC = Some t
  ∧ ∃ m3, step m2 = Ret tt m3
          ∧ regs m3 !! VInt PC = Some (VInt (i + 1))
          ∧ fetch m3 = py_index (program m) (i + 1).
Proof.
  intros Hpc Hf Hex Hret.
  pose proof (step_fetch _ _ _ _ _ Hpc Hf ops_JMPR) as Hs.
  split; [exact Hs|]. split.
  { rewrite Hs. apply jmpr_op_spec, advance_pc_PC. }
  split; [done|]. split; [apply jump_to_PC|].
  destruct (exec_no_jmpr_preserves _ _ Hex) as [Hra Hprog].
  destruct (fetch_Some _ _ Hret) as (pc2 & Hpc2 & Hf2).
  exists (jump_to (VInt (i + 1)) (advance_pc pc2 m2)).
  split; [|split].
  - rewrite (step_fetch _ _ _ _ _ Hpc2 Hf2 ops_RET), ret_op_spec.
    cbn [ra advance_pc set_regs]. by rewrite Hra.
  - apply jump_to_PC.
  - unfold fetch. rewrite jump_to_PC. cbn [program jump_to advance_pc set_regs].
    by rewrite Hprog.
Qed.

Lemma jmpr_then_ret_returns_after_call_witness :
  let m := Machine_init call_prog [] in
  let m1 := after_call 0 (VInt 2) m in
  let m2 := final (step m1) in
  (regs m !! VInt PC = Some (VInt 0)
   ∧ exec_no_jmpr m1 m2
   ∧ fetch m2 = Some [VInt RET])
  ∧ step m = Ret tt m1
  ∧ ∃ m3, step m2 = Ret tt m3
          ∧ regs m3 !! VInt PC = Some (VInt 1)
          ∧ fetch m3 = Some [VInt JMP; VInt 99].
Proof.
  intros m m1 m2.
  assert (regs m !! VInt PC = Some (VInt 0)) as Hpc by reflexivity.
  assert (exec_no_jmpr m1 m2) as Hex.
  { apply (exec_no_jmpr_step m1 m2 m2 (VInt INC) [VInt R_0]);
      [reflexivity | done | reflexivity | apply exec_no_jmpr_refl]. }
  assert (fetch m2 = Some [VInt RET]) as Hret by reflexivity.
  split; [done|].
  destruct (jmpr_then_ret_returns_after_call m m2 0 (VInt 2) [] [] Hpc eq_refl Hex Hret)
    as (_ & Hs & _ & _ & m3 & Hs3 & Hpc3 & Hf3).
  split; [exact Hs|]. exists m3. split; [exact Hs3|]. split; [exact Hpc3|].
  rewrite Hf3. reflexivity.
Defined.

(** ** The bounded loop (C7) *)

Lemma ops_LOOP : ops !! VInt LOOP = Some loop_op.
Proof. reflexivity. Qed.
Lemma ops_INC : ops !! VInt INC = Some inc_op.
Proof. reflexivity. Qed.
Lemma ops_CNT : ops !! VInt CNT = Some cnt_op.
Proof. reflexivity. Qed.

Lemma loop_op_spec (m : Machine) (t : value) (tl : list value) (c : Z) :
  regs m !! VInt R_CNT = Some (VInt c) →
  loop_op (t :: tl) m =
  Ret tt (if bool_decide (c - 1 = 0) then dec_cnt c m else jump_to t (dec_cnt c m)).
Proof.
  intros Hc. unfold loop_op. operands. rewrite (get_reg_Some _ _ _ Hc).
  cbn [py_sub py_arith put_reg modify]. unfold mret, M_ret. cbn beta iota.
  rewrite (get_reg_Some _ (VInt R_CNT) (VInt (c - 1))) by apply lookup_insert_eq.
  cbn [py_truthy]. by case_bool_decide.
Qed.

Lemma inc_op_spec (m : Machine) (r : value) (tl : list value) (a : Z) :
  regs m !! r = Some (VInt a) →
  inc_op (r :: tl) m = Ret tt (set_regs (<[r := VInt (a + 1)]> (regs m)) m).
Proof.
  intros Hr. unfold inc_op. operands. by rewrite (get_reg_Some _ _ _ Hr).
Qed.

Lemma cnt_op_spec (m : Machine) (v : value) (tl : list value) :
  cnt_op (v :: tl) m = Ret tt (set_regs (<[VInt R_CNT := v]> (regs m)) m).
Proof. unfold cnt_op. by operands. Qed.

(** Looks a register up through the updates made so far. *)
Ltac reg_lookup :=
  unfold after_call, jump_to, dec_cnt, advance_pc; cbn;
  repeat first [ apply lookup_insert_eq | rewrite lookup_insert_ne by done ];
  try done.

(** One round of the loop of [loop_prog]: the body, then LOOP. *)
Lemma loop_prog_round (n : Z) (m : Machine) (c j : Z) :
  program m = loop_prog n →
  regs m !! VInt PC = Some (VInt 1) →
  regs m !! VInt R_CNT = Some (VInt j) →
  regs m !! VInt R_0 = Some (VInt c) →
  ∃ ma mb,
    step m = Ret tt ma ∧ regs ma !! VInt PC = Some (VInt 2)
    ∧ step ma = Ret tt mb
    ∧ program mb = loop_prog n
    ∧ regs mb !! VInt PC = Some (VInt (if bool_decide (j - 1 = 0) then 3 else 1))
    ∧ regs mb !! VInt R_CNT = Some (VInt (j - 1))
    ∧ regs mb !! VInt R_0 = Some (VInt (c + 1))
    ∧ stack mb = stack m ∧ mem mb = mem m ∧ stdout mb = stdout m.
Proof.
  intros Hprog Hpc Hcnt Hr0.
  set (ma := set_regs (<[VInt R_0 := VInt (c + 1)]> (regs (advance_pc 1 m))) (advance_pc 1 m)).
  assert (program ma = loop_prog n) as Hproga by exact Hprog.
  assert (regs ma !! VInt PC = Some (VInt 2)) as Hpca by (unfold ma; reg_lookup).
  assert (regs (advance_pc 2 ma) !! VInt R_CNT = Some (VInt j)) as Hcnta
    by (unfold ma; reg_lookup).
  assert (step m = Ret tt ma) as Hs1.
  { rewrite (step_fetch m 1 (VInt INC) [VInt R_0] inc_op Hpc); [|by rewrite Hprog|done].
    apply inc_op_spec. by reg_lookup. }
  exists ma.
  exists (if bool_decide (j - 1 = 0) then dec_cnt j (advance_pc 2 ma)
          else jump_to (VInt 1) (dec_cnt j (advance_pc 2 ma))).
  split; [done|]. split; [done|]. split.
  { rewrite (step_fetch ma 2 (VInt LOOP) [VInt 1] loop_op Hpca); [|by rewrite Hproga|done].
    by rewrite (loop_op_spec _ _ _ j Hcnta). }
  case_bool_decide; repeat split; try done; unfold ma; reg_lookup.
Qed.

(** From the head of the body with a count of [k + 1], the loop makes
    [k + 1] rounds and then [run] halts past the LOOP. *)
Lemma loop_prog_iterates (n : Z) (k : nat) :
  ∀ (m : Machine) (c : Z) (fuel : nat),
    program m = loop_prog n →
    regs m !! VInt PC = Some (VInt 1) →
    regs m !! VInt R_CNT = Some (VInt (Z.of_nat (S k))) →
    regs m !! VInt R_0 = Some (VInt c) →
    ∃ m', run (2 * S k + 1 + fuel) m = Some (Ret (VInt 0) m')
          ∧ regs m' !! VInt PC = Some (VInt 3)
          ∧ regs m' !! VInt R_CNT = Some (VInt 0)
          ∧ regs m' !! VInt R_0 = Some (VInt (c + Z.of_nat (S k)))
          ∧ stack m' = stack m ∧ mem m' = mem m ∧ stdout m' = stdout m.
Proof.
  induction k as [|k IH]; intros m c fuel Hprog Hpc Hcnt Hr0;
    destruct (loop_prog_round n m c _ Hprog Hpc Hcnt Hr0)
      as (ma & mb & Hs1 & Hpca & Hs2 & Hprogb & Hpcb & Hcntb & Hr0b & Hst & Hme & Hout).
  - (* last round: LOOP falls through and the fetch at 3 fails *)
    exists mb. split; [|by repeat split].
    change (2 * 1 + 1 + fuel)%nat with (S (S (S fuel))).
    rewrite (run_step _ _ _ _ Hpc Hs1), (run_step _ _ _ _ Hpca Hs2).
    apply (run_index_error _ _ 3); [done|]. by rewrite Hprogb.
  - rewrite bool_decide_false in Hpcb by lia.
    destruct (IH mb (c + 1) fuel) as (m' & Hrun & H1 & H2 & H3 & H4 & H5 & H6); try done.
    { rewrite Hcntb. do 2 f_equal. lia. }
    exists m'. split.
    + replace (2 * S (S k) + 1 + fuel)%nat with (S (S (2 * S k + 1 + fuel))) by lia.
      by rewrite (run_step _ _ _ _ Hpc Hs1), (run_step _ _ _ _ Hpca Hs2).
    + repeat split; try congruence. rewrite H3. do 2 f_equal. lia.
Qed.

(** C7.  The handler of LOOP decrements [regs[CNT]] and then assigns
    its target to PC exactly when the decremented count is not 0.  And
    the program "CNT n; INC R_0; LOOP 1" with [n > 0], run on a fresh
    machine with enough fuel, halts with R_0 = [n], that is after exactly
    [n] executions of its body, with the count at 0 and PC past the LOOP:
    the round in which the count reached 0 fell through.  The witness
    takes [n = 3]. *)
Theorem loop_runs_body_count_times (n : Z) (inp : list (option Z)) (fuel : nat) :
  (∀ (m : Machine) (t : value) (tl : list value) (c : Z),
     regs m !! VInt R_CNT = Some (VInt c) →
     loop_op (t :: tl) m =
     Ret tt (if bool_decide (c - 1 = 0) then dec_cnt c m else jump_to t (dec_cnt c m)))
  ∧ (0 < n →
     ∃ m', run (2 * Z.to_nat n + 2 + fuel) (Machine_init (loop_prog n) inp)
           = Some (Ret (VInt 0) m')
           ∧ regs m' !! VInt R_0 = Some (VInt n)
           ∧ regs m' !! VInt R_CNT = Some (VInt 0)
           ∧ regs m' !! VInt PC = Some (VInt 3)).
Proof.
  split; [intros m t tl c; apply loop_op_spec|]. intros Hn.
  set (m0 := Machine_init (loop_prog n) inp).
  set (m1 := set_regs (<[VInt R_CNT := VInt n]> (regs (advance_pc 0 m0))) (advance_pc 0 m0)).
  assert (step m0 = Ret tt m1) as Hs0.
  { rewrite (step_fetch m0 0 (VInt CNT) [VInt n] cnt_op); try done. }
  destruct (Z.to_nat n) as [|k] eqn:Hk; [lia|].
  destruct (loop_prog_iterates n k m1 0 fuel) as (m' & Hrun & H1 & H2 & H3 & _); try done.
  { unfold m1. cbn. rewrite lookup_insert_eq. do 2 f_equal. lia. }
  exists m'. split; [|repeat split; try done].
  - replace (2 * S k + 2 + fuel)%nat with (S (2 * S k + 1 + fuel)) by lia.
    by rewrite (run_step _ m0 m1 0).
  - rewrite H3. do 2 f_equal. lia.
Qed.

Lemma loop_runs_body_count_times_witness :
  let m1 := set_regs (<[VInt R_CNT := VInt 1]> init_regs) (Machine_init (loop_prog 3) []) in
  let m2 := set_regs (<[VInt R_CNT := VInt 2]> init_regs) (Machine_init (loop_prog 3) []) in
  (0 < 3
   ∧ regs m1 !! VInt R_CNT = Some (VInt 1)
   ∧ regs m2 !! VInt R_CNT = Some (VInt 2))
  ∧ loop_op [VInt 1] m1 = Ret tt (dec_cnt 1 m1)
  ∧ loop_op [VInt 1] m2 = Ret tt (jump_to (VInt 1) (dec_cnt 2 m2))
  ∧ run 8 (Machine_init (loop_prog 3) [])
    = Some (Ret (VInt 0)
        (set_regs (<[VInt PC := VInt 3]> (<[VInt R_CNT := VInt 0]>
                   (<[VInt R_0 := VInt 3]> init_regs)))
           (Machine_init (loop_prog 3) [])))
  ∧ ∃ m', run 8 (Machine_init (loop_prog 3) []) = Some (Ret (VInt 0) m')
          ∧ regs m' !! VInt R_0 = Some (VInt 3)
          ∧ regs m' !! VInt R_CNT = Some (VInt 0)
          ∧ regs m' !! VInt PC = Some (VInt 3).
Proof.
  intros m1 m2.
  assert (0 < 3) as H by lia.
  assert (regs m1 !! VInt R_CNT = Some (VInt 1)) as H1 by reflexivity.
  assert (regs m2 !! VInt R_CNT = Some (VInt 2)) as H2 by reflexivity.
  destruct (loop_runs_body_count_times 3 [] 0%nat) as [Hop Hrun].
  split; [done|].
  split; [exact (Hop m1 (VInt 1) [] 1 H1)|].
  split; [exact (Hop m2 (VInt 1) [] 2 H2)|].
  split; [vm_compute; reflexivity|].
  exact (Hrun H).
Defined.

(** ** Unrecognised math and comparison modes (C8) *)














(** An exception other than IndexError leaves [run] uncaught. *)
Lemma run_raises (fuel : nat) (m m' : Machine) (pc : Z) (e : exn) :
  regs m !! VInt PC = Some (VInt pc) →
  step m = Exc e m' →
  e ≠ IndexError →
  run (S fuel) m = Some (Exc e m').
Proof.
  intros Hpc Hs He. cbn [run]. rewrite (get_reg_Some _ _ _ Hpc), Hs. by destruct e.
Qed.

Lemma ops_MATH : ops !! VInt MATH = Some math_op.
Proof. reflexivity. Qed.




(** * Further properties of the machine *)

(** ** Relations that every computation respects *)

Section respects.
Context (R : Machine → Machine → Prop) `{!PreOrder R}.

Lemma respects_ret {A} (a : A) : respects R (mret a).
Proof. intros m. reflexivity. Qed.

Lemma respects_raise {A} (e : exn) : respects R (@raise A e).
Proof. intros m. reflexivity. Qed.

Lemma respects_gets {A} (g : Machine → A) : respects R (gets g).
Proof. intros m. reflexivity. Qed.

Lemma respects_bind {A B} (c : M A) (k : A → M B) :
  respects R c → (∀ a, respects R (k a)) → respects R (c ≫= k).
Proof.
  intros Hc Hk m. unfold mbind, M_bind. specialize (Hc m).
  destruct (c m) as [a m'|e m']; cbn in *; [|done].
  by etrans; [|apply Hk].
Qed.

Lemma respects_modify (g : Machine → Machine) :
  (∀ m, R m (g m)) → respects R (modify g).
Proof. intros Hg m. apply Hg. Qed.

Lemma respects_dict_get {V} (d : gmap value V) (k : value) : respects R (dict_get d k).
Proof. intros m. unfold dict_get. destruct (d !! k); reflexivity. Qed.

Lemma respects_get_reg (r : value) : respects R (get_reg r).
Proof. apply respects_bind; [apply respects_gets|]. intros d. apply respects_dict_get. Qed.

Lemma respects_get_mem (a : value) : respects R (get_mem a).
Proof. apply respects_bind; [apply respects_gets|]. intros d. apply respects_dict_get. Qed.

Lemma respects_py_getitem {A} (l : list A) (i : value) : respects R (py_getitem l i).
Proof.
  intros m. unfold py_getitem. destruct i as [|z]; [reflexivity|].
  destruct (py_index l z); reflexivity.
Qed.

Lemma respects_item (rest : list value) (k : Z) : respects R (item rest k).
Proof. apply respects_py_getitem. Qed.

Lemma respects_py_arith (g : Z → Z → Z) (a b : value) : respects R (py_arith g a b).
Proof. intros m. destruct a, b; reflexivity. Qed.

Lemma respects_py_floordiv (a b : value) : respects R (py_floordiv a b).
Proof.
  intros m. destruct a as [|x], b as [|y]; try reflexivity.
  cbn. case_bool_decide; reflexivity.
Qed.

Lemma respects_py_order (g : Z → Z → bool) (a b : value) : respects R (py_order g a b).
Proof. intros m. destruct a, b; reflexivity. Qed.

Lemma respects_py_chr (v : value) : respects R (py_chr v).
Proof.
  intros m. destruct v as [|c]; [reflexivity|]. cbn. repeat case_bool_decide; reflexivity.
Qed.

Lemma respects_py_input_int :
  (∀ m x tl, stdin m = x :: tl → R m (set_stdin tl m)) → respects R py_input_int.
Proof.
  intros Hf m. unfold py_input_int.
  destruct (stdin m) as [|[z|] tl] eqn:Hin; cbn; [reflexivity|..]; by eapply Hf.
Qed.

Lemma respects_stack_pop :
  (∀ m, R m (set_stack (removelast (stack m)) m)) → respects R stack_pop.
Proof. intros Hf m. unfold stack_pop. destruct (last (stack m)); cbn; [apply Hf|reflexivity]. Qed.

Lemma respects_dispatch (op : value) (rest : list value) :
  (∀ h, ops !! op = Some h → respects R (h rest)) → respects R (dispatch op rest).
Proof.
  intros Hh m. unfold dispatch, dict_get, mbind, M_bind.
  destruct (ops !! op) as [h|] eqn:Hop; [by apply Hh|reflexivity].
Qed.

Lemma respects_step :
  (∀ v m, R m (set_regs (<[VInt PC := v]> (regs m)) m)) →
  (∀ op h rest, ops !! op = Some h → respects R (h rest)) →
  respects R step.
Proof.
  intros Hpc Hops. unfold step.
  apply respects_bind; [apply respects_get_reg|]. intros pc.
  apply respects_bind; [apply respects_gets|]. intros p.
  apply respects_bind; [apply respects_py_getitem|]. intros instruct.
  apply respects_bind; [apply respects_get_reg|]. intros pc0.
  apply respects_bind; [apply respects_py_arith|]. intros pc1.
  apply respects_bind; [apply respects_modify; intros m; apply Hpc|]. intros _.
  apply respects_bind; [apply respects_item|]. intros op.
  apply respects_dispatch. intros h Hop. exact (Hops op h _ Hop).
Qed.

Lemma respects_run (fuel : nat) :
  respects R step →
  ∀ m o, run fuel m = Some o → R m (final o).
Proof.
  intros Hstep. induction fuel as [|fuel IH]; intros m o; [done|]. cbn [run].
  pose proof (respects_get_reg (VInt PC) m) as Hg.
  destruct (get_reg (VInt PC) m) as [[|pc] m1|e m1]; cbn in Hg.
  - by intros [= <-].
  - pose proof (Hstep m1) as Hs.
    destruct (step m1) as [[] m2|e m2]; cbn in Hs.
    + intros Hrun. etrans; [done|]. etrans; [done|by apply IH].
    + destruct e; intros [= <-]; cbn; by etrans.
  - by intros [= <-].
Qed.
End respects.

#[global] Instance grows_preorder : PreOrder grows.
Proof.
  split; [by intros m|]. intros m1 m2 m3 [H1 H2] [H3 H4]. split; set_solver.
Qed.

#[global] Instance streams_preorder : PreOrder streams.
Proof.
  split; [by intros m|]. intros m1 m2 m3 [H1 H2] [H3 H4]. split; by etrans.
Qed.

(** Goes through a handler primitive by primitive; [tac] proves that
    each write respects the relation. *)
Ltac respects_step tac :=
  first
    [ match goal with |- PreOrder _ => apply _ end
    | apply respects_get_reg
    | apply respects_get_mem
    | apply respects_item
    | match goal with |- respects _ (_ ≫= _) => apply respects_bind; [..|intros ?] end
    | apply respects_ret
    | apply respects_raise
    | apply respects_gets
    | apply respects_py_arith
    | apply respects_py_floordiv
    | apply respects_py_order
    | apply respects_py_chr
    | apply respects_py_input_int; [apply _ | tac]
    | apply respects_stack_pop; [apply _ | tac]
    | apply respects_modify; tac
    | case_bool_decide
    | match goal with |- respects _ (if ?b then _ else _) => destruct b end ].

Ltac respects_tac tac :=
  unfold mov_op, mem_op, limm_op, math_op, mathi_op, comp_op, cnt_op, loop_op,
    jmp_op, jmpc_op, jmpr_op, ret_op, inc_op, dec_op, stck_op, put_reg, put_mem,
    print_value, print_format, print_char, py_str_check, emit, quit, stack_append,
    py_add, py_sub, py_mul;
  repeat respects_step tac.

(** The fifteen entries of the dispatch table, one goal each. *)
Ltac ops_cases Hop :=
  apply elem_of_list_to_map_2 in Hop;
  repeat (apply elem_of_cons in Hop as [Hop | Hop]; [injection Hop as -> ->|]);
  [..|by apply elem_of_nil in Hop].

Ltac grows_side :=
  intros; split; cbn; try rewrite dom_insert_L; set_solver.

Lemma ops_grow (op : value) (h : list value → M unit) (rest : list value) :
  ops !! op = Some h → respects grows (h rest).
Proof. intros Hop. ops_cases Hop; respects_tac grows_side. Qed.

Lemma step_grows : respects grows step.
Proof. apply respects_step; [apply _|grows_side|apply ops_grow]. Qed.

Ltac streams_side :=
  intros; split; cbn; try done;
  first [ by apply prefix_app_r | by apply suffix_nil | by (eexists [_]; eassumption)
        | match goal with H : stdin _ = _ |- _ => rewrite H; by apply suffix_cons_r end ].

Lemma ops_stream (op : value) (h : list value → M unit) (rest : list value) :
  ops !! op = Some h → respects streams (h rest).
Proof. intros Hop. ops_cases Hop; respects_tac streams_side. Qed.

Lemma step_streams : respects streams step.
Proof. apply respects_step; [apply _|streams_side|apply ops_stream]. Qed.

(** ** Invariants of [run] *)

Lemma same_preorder {X : Type} (f : Machine → X) : PreOrder (λ m m' : Machine, f m' = f m).
Proof. split; [by intros m|]. intros m1 m2 m3 H1 H2. by rewrite H2. Qed.

Lemma preserves_run {X : Type} (f : Machine → X) (fuel : nat) (m : Machine)
    (o : outcome value) :
  preserves f step → run fuel m = Some o → f (final o) = f m.
Proof.
  intros Hs. apply (@respects_run _ (same_preorder f) fuel Hs).
Qed.

(** X1.  The program store is immutable: whatever [run] does, and however it
    ends, the machine it leaves holds the program it was given. *)
Theorem run_keeps_program (fuel : nat) (m : Machine) (o : outcome value) :
  run fuel m = Some o → program (final o) = program m.
Proof. apply preserves_run, step_preserves_program. Qed.

Ltac preserves_handlers :=
  unfold mov_op, mem_op, limm_op, math_op, mathi_op, comp_op, cnt_op, loop_op,
    jmp_op, jmpc_op, jmpr_op, ret_op, inc_op, dec_op, stck_op, put_reg, put_mem,
    print_value, print_format, print_char, py_str_check, emit, quit, stack_append,
    py_add, py_sub, py_mul;
  preserves_tac.

Lemma ops_preserve_cond (op : value) (h : list value → M unit) (rest : list value) :
  ops !! op = Some h → op ≠ VInt COMP → preserves cond (h rest).
Proof. intros Hop Hne. ops_cases Hop; try done; preserves_handlers. Qed.

Lemma ops_preserve_mem (op : value) (h : list value → M unit) (rest : list value) :
  ops !! op = Some h → op ≠ VInt MEM → preserves mem (h rest).
Proof. intros Hop Hne. ops_cases Hop; try done; preserves_handlers. Qed.

Lemma ops_preserve_stdin (op : value) (h : list value → M unit) (rest : list value) :
  ops !! op = Some h →
  op ≠ VInt MEM ∧ op ≠ VInt MATH ∧ op ≠ VInt MATHI ∧ op ≠ VInt COMP →
  preserves stdin (h rest).
Proof. intros Hop (? & ? & ? & ?). ops_cases Hop; try done; preserves_handlers. Qed.

Lemma ops_preserve_stack (op : value) (h : list value → M unit) (rest : list value) :
  ops !! op = Some h → op ≠ VInt STCK → preserves stack (h rest).
Proof. intros Hop Hne. ops_cases Hop; try done; preserves_handlers. Qed.

Lemma ops_preserve_stdout (op : value) (h : list value → M unit) (rest : list value) :
  ops !! op = Some h →
  op ≠ VInt MEM ∧ op ≠ VInt MATH ∧ op ≠ VInt MATHI ∧ op ≠ VInt COMP →
  preserves stdout (h rest).
Proof. intros Hop (? & ? & ? & ?). ops_cases Hop; try done; preserves_handlers. Qed.

Lemma step_frame {X : Type} (f : Machine → X) (P : value → Prop) :
  (∀ r m, f (set_regs r m) = f m) →
  (∀ op h rest, ops !! op = Some h → P op → preserves f (h rest)) →
  ∀ m op rest, fetch m = Some (op :: rest) → P op → f (final (step m)) = f m.
Proof.
  intros Hregs Hops m op rest (pc & Hpc & Hf)%fetch_Some HP.
  rewrite (step_dispatch _ _ _ _ Hpc Hf). unfold dispatch, dict_get, mbind, M_bind.
  destruct (ops !! op) as [h|] eqn:Hop; cbn.
  - rewrite (Hops op h rest Hop HP (advance_pc pc m)). apply Hregs.
  - apply Hregs.
Qed.

(** X6.  One iteration of the loop, however it ends, changes the data
    memory only if the fetched opcode is MEM, the stack only if it is
    STCK, the condition flag only if it is COMP, the return-address
    register only if it is JMPR, and touches the input and the output
    only if it is MEM, MATH, MATHI or COMP (MEM reads and prints, the
    other three print their error message and close the input on a mode
    they do not know). *)
Theorem step_touches_only_its_own (m : Machine) (op : value) (rest : list value) :
  fetch m = Some (op :: rest) →
  (op ≠ VInt MEM → mem (final (step m)) = mem m)
  ∧ (op ≠ VInt STCK → stack (final (step m)) = stack m)
  ∧ (op ≠ VInt COMP → cond (final (step m)) = cond m)
  ∧ (op ≠ VInt JMPR → ra (final (step m)) = ra m)
  ∧ (op ≠ VInt MEM → op ≠ VInt MATH → op ≠ VInt MATHI → op ≠ VInt COMP →
     stdin (final (step m)) = stdin m ∧ stdout (final (step m)) = stdout m).
Proof.
  intros Hf.
  split; [intros Hne|split; [intros Hne|split; [intros Hne|split; [intros Hne|]]]].
  - apply (step_frame mem (λ o, o ≠ VInt MEM)) with op rest; try done.
    intros o h r Ho Hp; exact (ops_preserve_mem o h r Ho Hp).
  - apply (step_frame stack (λ o, o ≠ VInt STCK)) with op rest; try done.
    intros o h r Ho Hp; exact (ops_preserve_stack o h r Ho Hp).
  - apply (step_frame cond (λ o, o ≠ VInt COMP)) with op rest; try done.
    intros o h r Ho Hp; exact (ops_preserve_cond o h r Ho Hp).
  - apply (step_frame ra (λ o, o ≠ VInt JMPR)) with op rest; try done.
    intros o h r Ho Hp; exact (ops_preserve_ra o h r Ho Hp).
  - intros H1 H2 H3 H4. split.
    + apply (step_frame stdin
               (λ o, o ≠ VInt MEM ∧ o ≠ VInt MATH ∧ o ≠ VInt MATHI ∧ o ≠ VInt COMP))
        with op rest; try done.
      intros o h r Ho Hp; exact (ops_preserve_stdin o h r Ho Hp).
    + apply (step_frame stdout
               (λ o, o ≠ VInt MEM ∧ o ≠ VInt MATH ∧ o ≠ VInt MATHI ∧ o ≠ VInt COMP))
        with op rest; try done.
      intros o h r Ho Hp; exact (ops_preserve_stdout o h r Ho Hp).
Qed.

Lemma comp_op_flag (rest : list value) (m : Machine) :
  cond (final (comp_op rest m)) = cond m ∨ flag_ok (final (comp_op rest m)).
Proof.
  destruct rest as [|r1 [|r2 [|mode tl]]]; try by left.
  unfold comp_op. operands.
  repeat case_bool_decide; [..|by left].
  all: destruct (regs m !! r1) as [a|] eqn:Hr1;
    [rewrite (get_reg_Some _ _ _ Hr1)|rewrite (get_reg_None _ _ Hr1); by left].
  all: destruct (regs m !! r2) as [b|] eqn:Hr2;
    [rewrite (get_reg_Some _ _ _ Hr2)|rewrite (get_reg_None _ _ Hr2); by left].
  all: unfold flag_ok, py_eq, py_ne; try (right; cbn; case_bool_decide; by auto).
  all: destruct a as [|x], b as [|y]; try by left.
  all: right; cbn; case_match; auto.
Qed.

#[global] Instance flag_step_preorder : PreOrder flag_step.
Proof. split; [intros m H; exact H|]. intros m1 m2 m3 H1 H2 H. exact (H2 (H1 H)). Qed.

Lemma step_flag : respects flag_step step.
Proof.
  intros m Hok. unfold flag_ok.
  destruct (fetch m) as [[|op rest]|] eqn:Hf.
  - destruct (fetch_Some _ _ Hf) as (pc & Hpc & Hi).
    by rewrite (step_empty_tuple _ _ Hpc Hi).
  - destruct (decide (op = VInt COMP)) as [->|Hne].
    + destruct (fetch_Some _ _ Hf) as (pc & Hpc & Hi).
      rewrite (step_fetch _ _ _ _ _ Hpc Hi ops_COMP).
      destruct (comp_op_flag rest (advance_pc pc m)) as [-> | H]; done.
    + rewrite (step_frame cond (λ o, o ≠ VInt COMP)) with m op rest; try done.
      intros o h r Ho Hp; exact (ops_preserve_cond o h r Ho Hp).
  - unfold fetch in Hf. destruct (regs m !! VInt PC) as [[|pc]|] eqn:Hpc.
    + by rewrite (step_pc_None _ Hpc).
    + by rewrite (step_fetch_fail _ _ Hpc Hf).
    + by rewrite (step_pc_missing _ Hpc).
Qed.

(** X2.  The condition flag is a bit: if it holds 0 or 1 when [run] starts
    (a fresh machine has 0), it holds 0 or 1 when [run] ends, however it
    ends. *)
Theorem run_keeps_flag_binary (fuel : nat) (m : Machine) (o : outcome value) :
  cond m = 0 ∨ cond m = 1 →
  run fuel m = Some o →
  cond (final o) = 0 ∨ cond (final o) = 1.
Proof. intros Hok Hrun. by apply (respects_run flag_step fuel step_flag m o Hrun). Qed.

Lemma init_regs_lookup (r : Z) : 0 ≤ r ≤ 15 → init_regs !! VInt r = Some (VInt 0).
Proof.
  intros Hr.
  assert (r = 0 ∨ r = 1 ∨ r = 2 ∨ r = 3 ∨ r = 4 ∨ r = 5 ∨ r = 6 ∨ r = 7 ∨ r = 8 ∨ r = 9
          ∨ r = 10 ∨ r = 11 ∨ r = 12 ∨ r = 13 ∨ r = 14 ∨ r = 15) as H by lia.
  repeat destruct H as [-> | H]; try reflexivity. by subst.
Qed.

(** X3.  Nothing is ever deleted: a register or a memory cell that exists
    when [run] starts still exists when it ends, however it ends. *)
Theorem run_never_removes_cells (fuel : nat) (m : Machine) (o : outcome value) (k : value) :
  run fuel m = Some o →
  (is_Some (regs m !! k) → is_Some (regs (final o) !! k))
  ∧ (is_Some (mem m !! k) → is_Some (mem (final o) !! k)).
Proof.
  intros Hrun. destruct (respects_run grows fuel step_grows m o Hrun) as [Hr Hm].
  split; intros H%elem_of_dom; apply elem_of_dom; set_solver.
Qed.

(** X4.  On a machine built by [Machine(prog)], the sixteen registers 0..15
    exist throughout: whatever the program and however [run] ends, each of
    them still holds a value. *)
Theorem fresh_machine_keeps_its_registers (fuel : nat) (p : list (list value))
    (inp : list (option Z)) (o : outcome value) (r : Z) :
  0 ≤ r ≤ 15 →
  run fuel (Machine_init p inp) = Some o →
  is_Some (regs (final o) !! VInt r).
Proof.
  intros Hr Hrun. destruct (respects_run grows fuel step_grows _ o Hrun) as [Hd _].
  apply elem_of_dom. apply Hd. apply elem_of_dom. cbn. rewrite init_regs_lookup; eauto.
Qed.

(** X5.  [run] only appends to the output, and only consumes input from the
    front: what was printed before is a prefix of what is printed after,
    and the input left is a suffix of the input there was. *)
Theorem run_streams (fuel : nat) (m : Machine) (o : outcome value) :
  run fuel m = Some o →
  stdout m `prefix_of` stdout (final o) ∧ stdin (final o) `suffix_of` stdin m.
Proof. intros Hrun. exact (respects_run streams fuel step_streams m o Hrun). Qed.

(** ** The dispatch table and the results of [run] *)

Lemma ops_handled (op : value) : is_Some (ops !! op) ↔ handled op.
Proof.
  split.
  - intros [h Hop]. ops_cases Hop; eexists; (split; [reflexivity|]); by vm_compute.
  - intros (z & -> & Hz & Hlog). unfold LOG in Hlog.
    assert (z = 0 ∨ z = 1 ∨ z = 2 ∨ z = 3 ∨ z = 4 ∨ z = 5 ∨ z = 7 ∨ z = 8 ∨ z = 9
            ∨ z = 10 ∨ z = 11 ∨ z = 12 ∨ z = 13 ∨ z = 14 ∨ z = 15) as H by lia.
    repeat destruct H as [-> | H]; try (eexists; reflexivity). subst. eexists; reflexivity.
Qed.

(** X7.  The dispatch table has a handler exactly for the integer opcodes
    0..15 other than LOG (6).  Fetching a tuple whose first component is
    anything else (LOG, an integer outside 0..15, None) ends [run] with
    KeyError uncaught, PC advanced and nothing else changed. *)
Theorem unknown_opcode_raises_KeyError (m : Machine) (pc : Z) (op : value)
    (rest : list value) (fuel : nat) :
  regs m !! VInt PC = Some (VInt pc) →
  py_index (program m) pc = Some (op :: rest) →
  ¬ handled op →
  run (S fuel) m = Some (Exc KeyError (advance_pc pc m)).
Proof.
  intros Hpc Hf Hno. apply (run_raises _ _ _ pc); [done| |done].
  apply (step_no_handler _ _ _ _ Hpc Hf).
  destruct (ops !! op) as [h|] eqn:Hop; [|done].
  destruct Hno. apply ops_handled. eauto.
Qed.

Lemma unknown_opcode_raises_KeyError_witness :
  let m := Machine_init [[VInt LOG; VInt R_0]; [VInt LIMM; VInt R_0; VInt 5]] [] in
  ¬ handled (VInt LOG)
  ∧ run 3 m = Some (Exc KeyError (advance_pc 0 m)).
Proof.
  intros m.
  assert (¬ handled (VInt LOG)) as Hno.
  { intros (z & [= <-] & _ & Hz). by apply Hz. }
  split; [exact Hno|].
  exact (unknown_opcode_raises_KeyError m 0 (VInt LOG) [VInt R_0] 2 eq_refl eq_refl Hno).
Defined.

(** X8.  [run] returns only two values: None, and then PC holds None, or
    0, and then the last iteration of the loop raised IndexError.  An
    IndexError never leaves [run]. *)
Theorem run_returns_None_or_0 (fuel : nat) (m m' : Machine) (v : value) :
  (run fuel m = Some (Ret v m') →
     (v = VNone ∧ regs m' !! VInt PC = Some VNone)
     ∨ (v = VInt 0 ∧ ∃ ml, step ml = Exc IndexError m'))
  ∧ run fuel m ≠ Some (Exc IndexError m').
Proof.
  revert m. induction fuel as [|fuel IH]; intros m; [done|]. cbn [run].
  destruct (regs m !! VInt PC) as [[|pc]|] eqn:Hpc.
  - rewrite (get_reg_Some _ _ _ Hpc). split; [|done]. intros [= <- <-]. by left.
  - rewrite (get_reg_Some _ _ _ Hpc).
    destruct (step m) as [[] m2|e m2] eqn:Hs; [apply IH|].
    destruct e; split; try done.
    intros [= <- <-]. right. eauto.
  - rewrite (get_reg_None _ _ Hpc). split; [done|]. by intros [= ].
Qed.

(** ** Stack, memory and the I/O channels *)

Lemma set_stack_id (m : Machine) : set_stack (stack m) m = m.
Proof. by destruct m. Qed.

Lemma set_regs_id (m : Machine) : set_regs (regs m) m = m.
Proof. by destruct m. Qed.

Lemma stck_push_spec (m : Machine) (r v : value) (tl : list value) :
  regs m !! r = Some v →
  stck_op (r :: VInt PUSH :: tl) m = Ret tt (set_stack (stack m ++ [v]) m).
Proof.
  intros Hr. unfold stck_op. operands. rewrite bool_decide_true by done.
  by rewrite (get_reg_Some _ _ _ Hr).
Qed.

Lemma stck_pop_spec (m : Machine) (r v : value) (s tl : list value) :
  stack m = s ++ [v] →
  stck_op (r :: VInt POP :: tl) m
  = Ret tt (set_regs (<[r := v]> (regs m)) (set_stack s m)).
Proof.
  intros Hs. unfold stck_op. operands.
  rewrite bool_decide_false by done. rewrite bool_decide_true by done.
  unfold stack_pop. rewrite Hs, last_snoc, removelast_last. done.
Qed.

(** X9.  The stack is last-in first-out: pushing the registers [r1] and
    [r2] and then popping into [r3] and [r4] leaves the value of [r2] in
    [r3], the value of [r1] in [r4], and the stack as it was, whichever
    registers these are. *)
Theorem stack_is_lifo (m : Machine) (r1 r2 r3 r4 a b : value) :
  regs m !! r1 = Some a →
  regs m !! r2 = Some b →
  (stck_op [r1; VInt PUSH];; stck_op [r2; VInt PUSH];;
   stck_op [r3; VInt POP];; stck_op [r4; VInt POP]) m
  = Ret tt (set_regs (<[r4 := a]> (<[r3 := b]> (regs m))) m).
Proof.
  intros H1 H2.
  rewrite (bind_Ret _ _ _ _ _ (stck_push_spec m r1 a [] H1)). cbn beta.
  erewrite bind_Ret; [|by apply (stck_push_spec _ r2 b [])]. cbn beta.
  erewrite bind_Ret; [|by apply (stck_pop_spec _ r3 b (stack m ++ [a]) [])]. cbn beta.
  erewrite (stck_pop_spec _ r4 a (stack m) []); [|done].
  by destruct m.
Qed.

Lemma stack_is_lifo_witness :
  let m := set_regs (<[VInt R_1 := VInt 2]> (<[VInt R_0 := VInt 1]> init_regs))
             (Machine_init [] []) in
  (regs m !! VInt R_0 = Some (VInt 1) ∧ regs m !! VInt R_1 = Some (VInt 2))
  ∧ (stck_op [VInt R_0; VInt PUSH];; stck_op [VInt R_1; VInt PUSH];;
     stck_op [VInt R_2; VInt POP];; stck_op [VInt R_3; VInt POP]) m
    = Ret tt (set_regs (<[VInt R_3 := VInt 1]> (<[VInt R_2 := VInt 2]> (regs m))) m).
Proof.
  intros m. split; [by split|].
  exact (stack_is_lifo m (VInt R_0) (VInt R_1) (VInt R_2) (VInt R_3) (VInt 1) (VInt 2)
           eq_refl eq_refl).
Defined.

Lemma mem_stor_spec (m : Machine) (ar sr a v : value) (tl : list value) :
  ar ≠ VInt IO_NUM_LIT → ar ≠ VInt IO_CHR_LIT →
  regs m !! ar = Some a → regs m !! sr = Some v →
  mem_op (ar :: sr :: VInt STOR :: tl) m = Ret tt (set_mem (<[a := v]> (mem m)) m).
Proof.
  intros Hn Hc Ha Hv. unfold mem_op. operands.
  rewrite bool_decide_false by done. rewrite bool_decide_true by done.
  rewrite !bool_decide_false by done.
  by rewrite (get_reg_Some _ _ _ Hv), (get_reg_Some _ _ _ Ha).
Qed.

Lemma mem_load_spec (m : Machine) (dr ar a v : value) (tl : list value) :
  ar ≠ VInt IO_IN_LIT →
  regs m !! ar = Some a → mem m !! a = Some v →
  mem_op (dr :: ar :: VInt LOAD :: tl) m = Ret tt (set_regs (<[dr := v]> (regs m)) m).
Proof.
  intros Hn Ha Hv. unfold mem_op. operands.
  rewrite bool_decide_true by done. rewrite bool_decide_false by done.
  by rewrite (get_reg_Some _ _ _ Ha), (get_mem_Some _ _ _ Hv).
Qed.

(** X10.  A store followed by a load through the same address register
    returns the stored value, and the store changes no other address.
    The channels are selected by the operand, not by the address: the
    round trip holds for every address a register may hold, the values
    of the I/O literals included. *)
Theorem store_then_load_round_trip (m : Machine) (ar sr dr a v : value) :
  ¬ io_operand ar →
  regs m !! ar = Some a →
  regs m !! sr = Some v →
  (mem_op [ar; sr; VInt STOR];; mem_op [dr; ar; VInt LOAD]) m
  = Ret tt (set_regs (<[dr := v]> (regs m)) (set_mem (<[a := v]> (mem m)) m))
  ∧ ∀ a', a' ≠ a →
      mem (set_mem (<[a := v]> (mem m)) m) !! a' = mem m !! a'.
Proof.
  intros Hio Ha Hv. unfold io_operand in Hio. split.
  - rewrite (bind_Ret _ _ _ _ _ (mem_stor_spec m ar sr a v [] ltac:(tauto) ltac:(tauto) Ha Hv)).
    cbn beta.
    rewrite (mem_load_spec _ dr ar a v []); [done|tauto|done|]. cbn. apply lookup_insert_eq.
  - intros a' Hne. cbn. by apply lookup_insert_ne.
Qed.

Lemma store_then_load_round_trip_witness :
  let m := set_regs (<[VInt R_1 := VInt 42]> (<[VInt R_0 := VInt IO_NUM_LIT]> init_regs))
             (Machine_init [] []) in
  (¬ io_operand (VInt R_0)
   ∧ regs m !! VInt R_0 = Some (VInt IO_NUM_LIT)
   ∧ regs m !! VInt R_1 = Some (VInt 42))
  ∧ (mem_op [VInt R_0; VInt R_1; VInt STOR];; mem_op [VInt R_2; VInt R_0; VInt LOAD]) m
    = Ret tt (set_regs (<[VInt R_2 := VInt 42]> (regs m))
                (set_mem (<[VInt IO_NUM_LIT := VInt 42]> (mem m)) m)).
Proof.
  intros m.
  assert (¬ io_operand (VInt R_0)) as Hio by (by intros [?|[?|?]]).
  split; [by repeat split|].
  exact (proj1 (store_then_load_round_trip m (VInt R_0) (VInt R_1) (VInt R_2)
                  (VInt IO_NUM_LIT) (VInt 42) Hio eq_refl eq_refl)).
Defined.



(** ** Arithmetic and registers *)

(** X13.  MATH and MATHI with mode DIV and a divisor 0 raise
    ZeroDivisionError and write nothing; [run] does not catch it. *)
Theorem division_by_zero_raises (m : Machine) (dst src1 src2 : value) (a : Z)
    (tl : list value) :
  (regs m !! src1 = Some (VInt a) → regs m !! src2 = Some (VInt 0) →
   math_op (dst :: src1 :: src2 :: VInt DIV :: tl) m = Exc ZeroDivisionError m
   ∧ ∀ m0 pc fuel,
       regs m0 !! VInt PC = Some (VInt pc) →
       py_index (program m0) pc = Some (VInt MATH :: dst :: src1 :: src2 :: VInt DIV :: tl) →
       advance_pc pc m0 = m →
       run (S fuel) m0 = Some (Exc ZeroDivisionError m))
  ∧ (regs m !! dst = Some (VInt a) →
     mathi_op (dst :: VInt DIV :: VInt 0 :: tl) m = Exc ZeroDivisionError m).
Proof.
  split.
  - intros H1 H2.
    assert (math_op (dst :: src1 :: src2 :: VInt DIV :: tl) m = Exc ZeroDivisionError m) as Hop.
    { unfold math_op. operands.
      rewrite !bool_decide_false by done. rewrite bool_decide_true by done.
      by rewrite (get_reg_Some _ _ _ H1), (get_reg_Some _ _ _ H2). }
    split; [done|]. intros m0 pc fuel Hpc Hf <-.
    apply (run_raises _ _ _ pc); [done| |done].
    by rewrite (step_fetch _ _ _ _ _ Hpc Hf ops_MATH).
  - intros H1. unfold mathi_op. operands.
    rewrite !bool_decide_false by done. rewrite bool_decide_true by done.
    by rewrite (get_reg_Some _ _ _ H1).
Qed.

Lemma division_by_zero_raises_witness :
  let m0 := Machine_init [[VInt MATH; VInt R_2; VInt R_0; VInt R_1; VInt DIV]] [] in
  (regs (advance_pc 0 m0) !! VInt R_0 = Some (VInt 0)
   ∧ regs (advance_pc 0 m0) !! VInt R_1 = Some (VInt 0))
  ∧ run 1 m0 = Some (Exc ZeroDivisionError (advance_pc 0 m0))
  ∧ mathi_op [VInt R_0; VInt DIV; VInt 0] m0 = Exc ZeroDivisionError m0.
Proof.
  intros m0. split; [by split|].
  destruct (division_by_zero_raises (advance_pc 0 m0) (VInt R_2) (VInt R_0) (VInt R_1) 0 [])
    as [Hmath _].
  destruct (division_by_zero_raises m0 (VInt R_0) (VInt R_0) (VInt R_1) 0 []) as [_ Hmathi].
  split; [|by apply Hmathi].
  destruct (Hmath eq_refl eq_refl) as [_ Hrun]. by apply (Hrun m0 0 0%nat).
Defined.

(** X14.  For each of the four math modes, MATHI with a literal does what
    MATH does with the destination as first source and a register that
    holds the literal as second: the same result or the same exception. *)
Theorem mathi_is_math_on_a_literal (m : Machine) (dst r mode imm : value)
    (tl tl' : list value) :
  math_mode mode →
  regs m !! r = Some imm →
  mathi_op (dst :: mode :: imm :: tl) m = math_op (dst :: dst :: r :: mode :: tl') m.
Proof.
  intros Hm Hr. unfold mathi_op, math_op. operands.
  destruct Hm as [-> | [-> | [-> | ->]]];
    repeat (first [rewrite bool_decide_true by done | rewrite bool_decide_false by done]);
    (destruct (regs m !! dst) as [a|] eqn:Hd;
     [rewrite (get_reg_Some _ _ _ Hd), (get_reg_Some _ _ _ Hr)
     |rewrite (get_reg_None _ _ Hd)]); done.
Qed.

Lemma mathi_is_math_on_a_literal_witness :
  let m := set_regs (<[VInt R_1 := VInt 3]> (<[VInt R_0 := VInt 10]> init_regs))
             (Machine_init [] []) in
  (math_mode (VInt MULT) ∧ regs m !! VInt R_1 = Some (VInt 3))
  ∧ mathi_op [VInt R_0; VInt MULT; VInt 3] m
    = math_op [VInt R_0; VInt R_0; VInt R_1; VInt MULT] m
  ∧ mathi_op [VInt R_0; VInt MULT; VInt 3] m
    = Ret tt (set_regs (<[VInt R_0 := VInt 30]> (regs m)) m).
Proof.
  intros m.
  assert (math_mode (VInt MULT)) as Hm by (right; right; by left).
  split; [by split|]. split; [|reflexivity].
  exact (mathi_is_math_on_a_literal m (VInt R_0) (VInt R_1) (VInt MULT) (VInt 3) [] []
           Hm eq_refl).
Defined.

(** X15.  INC then DEC, and DEC then INC, on a register that holds an
    integer, restore the machine exactly. *)
Theorem inc_dec_round_trip (m : Machine) (r : value) (a : Z) :
  regs m !! r = Some (VInt a) →
  (inc_op [r];; dec_op [r]) m = Ret tt m
  ∧ (dec_op [r];; inc_op [r]) m = Ret tt m.
Proof.
  intros Hr. unfold inc_op, dec_op. split; operands;
    rewrite (get_reg_Some _ _ _ Hr); cbn;
    rewrite (get_reg_Some _ r (VInt _)) by apply lookup_insert_eq;
    unfold put_reg, modify; cbn; rewrite insert_insert_eq.
  - replace (a + 1 - 1) with a by lia. rewrite insert_id by done. by destruct m.
  - replace (a - 1 + 1) with a by lia. rewrite insert_id by done. by destruct m.
Qed.

Lemma inc_dec_round_trip_witness :
  let m := Machine_init [] [] in
  regs m !! VInt R_0 = Some (VInt 0)
  ∧ (inc_op [VInt R_0];; dec_op [VInt R_0]) m = Ret tt m
  ∧ (dec_op [VInt R_0];; inc_op [VInt R_0]) m = Ret tt m.
Proof. intros m. split; [done|]. exact (inc_dec_round_trip m (VInt R_0) 0 eq_refl). Defined.

(** X16.  The register file is a dictionary: LIMM writes its literal to any
    register index [d] (creating the register when it is not among the
    sixteen), and a MOV from [d] then reads that literal. *)
Theorem limm_creates_register (m : Machine) (d d' v : value) :
  (limm_op [d; v];; mov_op [d'; d]) m
  = Ret tt (set_regs (<[d' := v]> (<[d := v]> (regs m))) m).
Proof.
  unfold limm_op, mov_op. operands. cbn.
  rewrite (get_reg_Some _ d v) by apply lookup_insert_eq. done.
Qed.

(** ** Comparison, conditional jump and the loop *)

Lemma py_order_spec (g : Z → Z → bool) (P : Prop) `{!Decision P} (a b : Z) (m : Machine) :
  (g a b = true ↔ P) →
  py_order g (VInt a) (VInt b) m = Ret (if bool_decide P then 1 else 0) m.
Proof.
  intros Hg. cbn. unfold mret, M_ret. do 2 f_equal.
  destruct (g a b); case_bool_decide; try done; intuition congruence.
Qed.

Lemma compare_Some (mode : value) (a b : Z) (c : bool) :
  compare mode a b = Some c →
  (mode = VInt EQ ∧ c = bool_decide (a = b))
  ∨ (mode = VInt NEQ ∧ c = bool_decide (a ≠ b))
  ∨ (mode = VInt LT ∧ c = bool_decide (a < b))
  ∨ (mode = VInt GT ∧ c = bool_decide (b < a))
  ∨ (mode = VInt LTE ∧ c = bool_decide (a ≤ b))
  ∨ (mode = VInt GTE ∧ c = bool_decide (b ≤ a)).
Proof.
  unfold compare.
  do 6 (case_bool_decide; [intros [= <-]; subst; auto 10|]).
  done.
Qed.

Lemma comp_op_ints (m : Machine) (r1 r2 mode : value) (a b : Z) (c : bool)
    (tl : list value) :
  regs m !! r1 = Some (VInt a) →
  regs m !! r2 = Some (VInt b) →
  compare mode a b = Some c →
  comp_op (r1 :: r2 :: mode :: tl) m = Ret tt (set_cond (if c then 1 else 0) m).
Proof.
  intros H1 H2 Hc. unfold comp_op. operands.
  destruct (compare_Some _ _ _ _ Hc)
    as [[-> ->] | [[-> ->] | [[-> ->] | [[-> ->] | [[-> ->] | [-> ->]]]]]];
    repeat (first [rewrite bool_decide_true by done | rewrite bool_decide_false by done]);
    rewrite (get_reg_Some _ _ _ H1), (get_reg_Some _ _ _ H2).
  - unfold py_eq, modify. do 2 f_equal. repeat case_bool_decide; congruence.
  - unfold py_ne, modify. do 2 f_equal. repeat case_bool_decide; congruence.
  - rewrite (py_order_spec Z.ltb (a < b)); [done|apply Z.ltb_lt].
  - rewrite (py_order_spec Z.gtb (b < a)); [done|]. rewrite Z.gtb_ltb. apply Z.ltb_lt.
  - rewrite (py_order_spec Z.leb (a ≤ b)); [done|apply Z.leb_le].
  - rewrite (py_order_spec Z.geb (b ≤ a)); [done|]. rewrite Z.geb_leb. apply Z.leb_le.
Qed.

(** X17.  COMP on two registers holding integers followed by JMPC is a
    jump-unless: for each of the six comparison modes, PC ends at the
    target of the JMPC when the comparison is false and just past the
    JMPC when it is true, and the flag holds the truth value. *)
Theorem comp_then_jmpc_branches_when_false (m : Machine) (pc a b : Z)
    (r1 r2 mode t : value) (c : bool) (tl tl' : list value) :
  regs m !! VInt PC = Some (VInt pc) →
  py_index (program m) pc = Some (VInt COMP :: r1 :: r2 :: mode :: tl) →
  py_index (program m) (pc + 1) = Some (VInt JMPC :: t :: tl') →
  regs (advance_pc pc m) !! r1 = Some (VInt a) →
  regs (advance_pc pc m) !! r2 = Some (VInt b) →
  compare mode a b = Some c →
  (step ;; step) m
  = Ret tt (set_cond (if c then 1 else 0)
              (if c then advance_pc (pc + 1) m else jump_to t m)).
Proof.
  intros Hpc Hf1 Hf2 H1 H2 Hc.
  assert (step m = Ret tt (set_cond (if c then 1 else 0) (advance_pc pc m))) as Hs1.
  { rewrite (step_fetch _ _ _ _ _ Hpc Hf1 ops_COMP).
    by apply (comp_op_ints _ _ _ _ a b). }
  rewrite (bind_Ret _ _ _ _ _ Hs1).
  cbn beta. rewrite (step_fetch (set_cond (if c then 1 else 0) (advance_pc pc m)) (pc + 1) _ _ jmpc_op
             (advance_pc_PC pc m) Hf2 ops_JMPC).
  rewrite jmpc_op_spec. destruct c; cbn [cond set_cond].
  - rewrite bool_decide_false by done.
    unfold advance_pc, set_cond, set_regs. cbn. by rewrite insert_insert_eq.
  - rewrite bool_decide_true by done.
    unfold jump_to, advance_pc, set_cond, set_regs. cbn. by rewrite !insert_insert_eq.
Qed.

Lemma comp_then_jmpc_branches_when_false_witness :
  let m := set_regs (<[VInt R_1 := VInt 7]> (<[VInt R_0 := VInt 3]> init_regs))
             (Machine_init [[VInt COMP; VInt R_0; VInt R_1; VInt GT]; [VInt JMPC; VInt 9]] []) in
  (regs m !! VInt PC = Some (VInt 0)
   ∧ regs (advance_pc 0 m) !! VInt R_0 = Some (VInt 3)
   ∧ regs (advance_pc 0 m) !! VInt R_1 = Some (VInt 7)
   ∧ compare (VInt GT) 3 7 = Some false)
  ∧ (step ;; step) m = Ret tt (set_cond 0 (jump_to (VInt 9) m)).
Proof.
  intros m. split; [by repeat split|].
  exact (comp_then_jmpc_branches_when_false m 0 3 7 (VInt R_0) (VInt R_1) (VInt GT) (VInt 9)
           false [] [] eq_refl eq_refl eq_refl eq_refl eq_refl eq_refl).
Defined.

(** X18.  LOOP counts down and tests for zero after decrementing, on
    unbounded integers: started with a count [n <= 0], the program
    "CNT n; INC R_0; LOOP 1" never leaves its loop, whatever the fuel. *)
Theorem loop_with_nonpositive_count_never_halts (n : Z) (inp : list (option Z))
    (fuel : nat) :
  n ≤ 0 → run fuel (Machine_init (loop_prog n) inp) = None.
Proof.
  intros Hn.
  assert (∀ k fuel' m j,
            (fuel' ≤ k)%nat → program m = loop_prog n →
            regs m !! VInt PC = Some (VInt 1) →
            regs m !! VInt R_CNT = Some (VInt j) → j ≤ 0 →
            (∃ c, regs m !! VInt R_0 = Some (VInt c)) →
            run fuel' m = None) as Hloop.
  { induction k as [|k IH]; intros fuel' m j Hle Hprog Hpc Hcnt Hj [c Hr0].
    { by replace fuel' with 0%nat by lia. }
    destruct fuel' as [|[|fuel']]; [done|..];
      destruct (loop_prog_round n m c j Hprog Hpc Hcnt Hr0)
        as (ma & mb & Hs1 & Hpca & Hs2 & Hprogb & Hpcb & Hcntb & Hr0b & _).
    - by rewrite (run_step _ _ _ _ Hpc Hs1).
    - rewrite (run_step _ _ _ _ Hpc Hs1), (run_step _ _ _ _ Hpca Hs2).
      rewrite bool_decide_false in Hpcb by lia.
      apply (IH fuel' mb (j - 1)); try done; [lia|lia|eauto]. }
  destruct fuel as [|fuel]; [done|].
  set (m0 := Machine_init (loop_prog n) inp).
  set (m1 := set_regs (<[VInt R_CNT := VInt n]> (regs (advance_pc 0 m0))) (advance_pc 0 m0)).
  assert (step m0 = Ret tt m1) as Hs0.
  { rewrite (step_fetch m0 0 (VInt CNT) [VInt n] cnt_op); try done. }
  rewrite (run_step _ m0 m1 0); [|done|done].
  apply (Hloop fuel fuel m1 n);
    [lia | done | unfold m1; reg_lookup | unfold m1; cbn; apply lookup_insert_eq | done
    | exists 0; unfold m1; reg_lookup].
Qed.

Lemma loop_with_nonpositive_count_never_halts_witness :
  0 ≤ 0 ∧ run 1000 (Machine_init (loop_prog 0) []) = None.
Proof.
  assert (0 ≤ 0) as H by lia. split; [exact H|].
  exact (loop_with_nonpositive_count_never_halts 0 [] 1000 H).
Defined.

(** ** Malformed tuples and the input channel *)

Lemma run_caught (fuel : nat) (m m' : Machine) (pc : Z) :
  regs m !! VInt PC = Some (VInt pc) →
  step m = Exc IndexError m' →
  run (S fuel) m = Some (Ret (VInt 0) m').
Proof. intros Hpc Hs. cbn [run]. by rewrite (get_reg_Some _ _ _ Hpc), Hs. Qed.

(** X19.  A tuple that carries only the opcode of a handler that reads an
    operand first (MOV, MEM, LIMM, MATH, MATHI, COMP, CNT, JMP, INC, DEC,
    STCK) ends [run] like the end of the program: the IndexError of
    [rest[0]] is caught and [run] returns 0, PC advanced and nothing else
    changed. *)
Theorem tuple_without_operands_halts (m : Machine) (pc op : Z) (fuel : nat) :
  regs m !! VInt PC = Some (VInt pc) →
  py_index (program m) pc = Some [VInt op] →
  op ∈ [MOV; MEM; LIMM; MATH; MATHI; COMP; CNT; JMP; INC; DEC; STCK] →
  run (S fuel) m = Some (Ret (VInt 0) (advance_pc pc m)).
Proof.
  intros Hpc Hf Hop. apply (run_caught _ _ _ pc Hpc).
  repeat (apply elem_of_cons in Hop as [-> | Hop];
          [by erewrite (step_fetch _ _ _ _ _ Hpc Hf) by reflexivity|]).
  by apply elem_of_nil in Hop.
Qed.

Lemma tuple_without_operands_halts_witness :
  let m := Machine_init [[VInt LIMM]; [VInt LIMM; VInt R_0; VInt 5]] [] in
  (regs m !! VInt PC = Some (VInt 0)
   ∧ LIMM ∈ [MOV; MEM; LIMM; MATH; MATHI; COMP; CNT; JMP; INC; DEC; STCK])
  ∧ run 4 m = Some (Ret (VInt 0) (advance_pc 0 m)).
Proof.
  intros m.
  assert (LIMM ∈ [MOV; MEM; LIMM; MATH; MATHI; COMP; CNT; JMP; INC; DEC; STCK]) as Hin.
  { apply elem_of_cons; right. apply elem_of_cons; right. apply elem_of_cons; by left. }
  split; [by split|].
  exact (tuple_without_operands_halts m 0 LIMM 3 eq_refl eq_refl Hin).
Defined.

(** X12.  A load whose second operand is the input literal reads the
    input, not the memory: it consumes one line and stores its integer
    in [regs[dst]]; at the end of the input it raises EOFError, and on a
    line that is no integer it raises ValueError, the line consumed. *)
Theorem input_load_reads_one_line (m : Machine) (dst : value) (tl : list value) :
  (stdin m = [] →
   mem_op (dst :: VInt IO_IN_LIT :: VInt LOAD :: tl) m = Exc EOFError m)
  ∧ (∀ z rest, stdin m = Some z :: rest →
     mem_op (dst :: VInt IO_IN_LIT :: VInt LOAD :: tl) m
     = Ret tt (set_regs (<[dst := VInt z]> (regs m)) (set_stdin rest m)))
  ∧ (∀ rest, stdin m = None :: rest →
     mem_op (dst :: VInt IO_IN_LIT :: VInt LOAD :: tl) m
     = Exc ValueError (set_stdin rest m)).
Proof.
  unfold mem_op. operands. rewrite !bool_decide_true by done.
  unfold py_input_int. repeat split.
  - by intros ->.
  - by intros z rest ->.
  - by intros rest ->.
Qed.

Lemma input_load_reads_one_line_witness :
  let m := set_mem (<[VInt IO_IN_LIT := VInt 9]> ∅) (Machine_init [] [Some 5; None]) in
  stdin m = [Some 5; None]
  ∧ mem_op [VInt R_0; VInt IO_IN_LIT; VInt LOAD] m
    = Ret tt (set_regs (<[VInt R_0 := VInt 5]> (regs m)) (set_stdin [None] m)).
Proof.
  intros m. split; [done|].
  destruct (input_load_reads_one_line m (VInt R_0) []) as (_ & H & _).
  by apply (H 5 [None]).
Defined.

Lemma run_keeps_program_witness :
  ∃ o, run 2000 (Machine_init (prog 30) []) = Some o ∧ program (final o) = prog 30.
Proof.
  assert (∃ o, run 2000 (Machine_init (prog 30) []) = Some o) as [o Ho]
    by (vm_compute; eauto).
  exists o. split; [exact Ho|].
  exact (run_keeps_program 2000 (Machine_init (prog 30) []) o Ho).
Defined.

Lemma run_keeps_flag_binary_witness :
  ∃ o, (cond (Machine_init (prog 30) []) = 0 ∨ cond (Machine_init (prog 30) []) = 1)
       ∧ run 2000 (Machine_init (prog 30) []) = Some o
       ∧ (cond (final o) = 0 ∨ cond (final o) = 1).
Proof.
  assert (∃ o, run 2000 (Machine_init (prog 30) []) = Some o) as [o Ho]
    by (vm_compute; eauto).
  assert (cond (Machine_init (prog 30) []) = 0 ∨ cond (Machine_init (prog 30) []) = 1)
    as Hc by (by left).
  exists o. split; [exact Hc|]. split; [exact Ho|].
  exact (run_keeps_flag_binary 2000 _ o Hc Ho).
Defined.

Lemma run_never_removes_cells_witness :
  ∃ o, run 6 (Machine_init add_prog []) = Some o
       ∧ is_Some (regs (Machine_init add_prog []) !! VInt R_13)
       ∧ is_Some (regs (final o) !! VInt R_13).
Proof.
  assert (∃ o, run 6 (Machine_init add_prog []) = Some o) as [o Ho]
    by (vm_compute; eauto).
  assert (is_Some (regs (Machine_init add_prog []) !! VInt R_13)) as Hr
    by (by exists (VInt 0)).
  exists o. split; [exact Ho|]. split; [exact Hr|].
  exact (proj1 (run_never_removes_cells 6 _ o (VInt R_13) Ho) Hr).
Defined.

Lemma fresh_machine_keeps_its_registers_witness :
  ∃ o, 0 ≤ 7 ≤ 15
       ∧ run 6 (Machine_init add_prog []) = Some o
       ∧ is_Some (regs (final o) !! VInt 7).
Proof.
  assert (∃ o, run 6 (Machine_init add_prog []) = Some o) as [o Ho]
    by (vm_compute; eauto).
  assert (0 ≤ 7 ≤ 15) as Hr by lia.
  exists o. split; [exact Hr|]. split; [exact Ho|].
  exact (fresh_machine_keeps_its_registers 6 add_prog [] o 7 Hr Ho).
Defined.

Lemma run_streams_witness :
  ∃ o, run 6 (Machine_init add_prog [Some 1]) = Some o
       ∧ stdout (Machine_init add_prog [Some 1]) `prefix_of` stdout (final o)
       ∧ stdin (final o) `suffix_of` [Some 1].
Proof.
  assert (∃ o, run 6 (Machine_init add_prog [Some 1]) = Some o) as [o Ho]
    by (vm_compute; eauto).
  exists o. split; [exact Ho|].
  exact (run_streams 6 _ o Ho).
Defined.

Lemma step_touches_only_its_own_witness :
  let m := Machine_init add_prog [Some 1] in
  (fetch m = Some [VInt LIMM; VInt R_0; VInt 5] ∧ VInt LIMM ≠ VInt MEM
   ∧ VInt LIMM ≠ VInt STCK ∧ VInt LIMM ≠ VInt COMP ∧ VInt LIMM ≠ VInt JMPR
   ∧ VInt LIMM ≠ VInt MATH ∧ VInt LIMM ≠ VInt MATHI)
  ∧ mem (final (step m)) = mem m
  ∧ stack (final (step m)) = stack m
  ∧ cond (final (step m)) = cond m
  ∧ ra (final (step m)) = ra m
  ∧ stdin (final (step m)) = stdin m
  ∧ stdout (final (step m)) = stdout m.
Proof.
  intros m. split; [by repeat split|].
  destruct (step_touches_only_its_own m (VInt LIMM) [VInt R_0; VInt 5] eq_refl)
    as (H1 & H2 & H3 & H4 & H5).
  destruct (H5 ltac:(done) ltac:(done) ltac:(done) ltac:(done)) as [H5a H5b].
  split; [by apply H1|]. split; [by apply H2|]. split; [by apply H3|].
  split; [by apply H4|]. split; [exact H5a|exact H5b].
Defined.

Lemma run_returns_None_or_0_witness :
  let m := Machine_init add_prog [] in
  let m' := set_stdout [OutValue (VInt 8)]
              (set_regs (<[VInt PC := VInt 99]> (<[VInt R_2 := VInt 8]>
                 (<[VInt R_1 := VInt 3]> (<[VInt R_0 := VInt 5]> init_regs)))) m) in
  run 6 m = Some (Ret (VInt 0) m')
  ∧ ((VInt 0 = VNone ∧ regs m' !! VInt PC = Some VNone)
     ∨ (VInt 0 = VInt 0 ∧ ∃ ml, step ml = Exc IndexError m')).
Proof.
  intros m m'.
  assert (run 6 m = Some (Ret (VInt 0) m')) as Hrun by (vm_compute; reflexivity).
  split; [exact Hrun|].
  exact (proj1 (run_returns_None_or_0 6 m m' (VInt 0)) Hrun).
Defined.
